(** * next-dev-flow: the theme provider and the question form

    A shallow embedding of [context/ThemeProvider.tsx] (the theme state
    holder) and of the [Question] form component (tag editor and submit
    life cycle), with the properties of the specification stated over it. *)

From Stdlib Require Import List NArith String Ascii Bool Arith Lia.
Import ListNotations.
Open Scope string_scope.
Open Scope list_scope.

Set Warnings "-register-all".

(** ** JavaScript strings

    A JavaScript string is a sequence of UTF-16 code units; [length] counts
    code units and [===] compares them one by one. *)
Module JS.

Definition code_unit := N.
Definition jsstring := list code_unit.

(** A string literal of the source (ASCII only). *)
Definition lit (s : string) : jsstring :=
  map N_of_ascii (list_ascii_of_string s).

(** The empty string. *)
Definition empty : jsstring := [].

Fixpoint eqb (a b : jsstring) : bool :=
  match a, b with
  | [], [] => true
  | x :: a', y :: b' => N.eqb x y && eqb a' b'
  | _, _ => false
  end.

(** [String.prototype.trim] strips WhiteSpace and LineTerminator code points
    (TAB, LF, VT, FF, CR, SP, NBSP, U+1680, U+2000..U+200A, U+2028, U+2029,
    U+202F, U+205F, U+3000, U+FEFF) from both ends. *)
Definition is_white_space (c : code_unit) : bool :=
  ((9 <=? c) && (c <=? 13) || (c =? 32) || (c =? 160) || (c =? 5760)
   || (8192 <=? c) && (c <=? 8202) || (c =? 8232) || (c =? 8233)
   || (c =? 8239) || (c =? 8287) || (c =? 12288) || (c =? 65279))%N.

Fixpoint trimStart (s : jsstring) : jsstring :=
  match s with
  | c :: r => if is_white_space c then trimStart r else s
  | [] => []
  end.

Definition trimEnd (s : jsstring) : jsstring := rev (trimStart (rev s)).

Definition trim (s : jsstring) : jsstring := trimEnd (trimStart s).

(** [Array.prototype.includes] on an array of strings. *)
Definition includes (l : list jsstring) (x : jsstring) : bool :=
  existsb (eqb x) l.

(** *** [JSON.parse]

    The JSON grammar of ECMA-404, which [JSON.parse] accepts exactly.  A
    number is kept as its lexeme (the value is the double it denotes) and an
    object as its members in source order; the form only passes the parsed
    value on. *)
Inductive JSValue : Type :=
| JNull
| JBool (b : bool)
| JNumber (lexeme : jsstring)
| JString (s : jsstring)
| JArray (elements : list JSValue)
| JObject (members : list (jsstring * JSValue)).

Definition is_json_ws (c : code_unit) : bool :=
  ((c =? 32) || (c =? 9) || (c =? 10) || (c =? 13))%N.

Fixpoint skip_ws (s : jsstring) : jsstring :=
  match s with
  | c :: r => if is_json_ws c then skip_ws r else s
  | [] => []
  end.

Definition is_digit (c : code_unit) : bool := ((48 <=? c) && (c <=? 57))%N.

Fixpoint span_digits (s : jsstring) : jsstring * jsstring :=
  match s with
  | c :: r =>
      if is_digit c then let (ds, r') := span_digits r in (c :: ds, r')
      else ([], s)
  | [] => ([], [])
  end.

(** A number: an optional minus sign, an integer part without a leading
    zero (unless it is 0 alone), an optional fraction and an optional
    exponent. *)
Definition parse_int (s : jsstring) : option (jsstring * jsstring) :=
  match s with
  | c :: r =>
      if (c =? 48)%N then Some ([c], r)
      else if is_digit c then let (ds, r') := span_digits r in Some (c :: ds, r')
      else None
  | [] => None
  end.

Definition parse_frac (s : jsstring) : option (jsstring * jsstring) :=
  match s with
  | c :: r =>
      if (c =? 46)%N then
        match span_digits r with
        | ([], _) => None
        | (ds, r') => Some (c :: ds, r')
        end
      else Some ([], s)
  | [] => Some ([], [])
  end.

Definition parse_exp (s : jsstring) : option (jsstring * jsstring) :=
  match s with
  | c :: r =>
      if ((c =? 101) || (c =? 69))%N then
        let (sign, r1) :=
          match r with
          | d :: r1 => if ((d =? 43) || (d =? 45))%N then ([d], r1) else ([], r)
          | [] => ([], r)
          end in
        match span_digits r1 with
        | ([], _) => None
        | (ds, r') => Some (c :: sign ++ ds, r')
        end
      else Some ([], s)
  | [] => Some ([], [])
  end.

Definition parse_number (s : jsstring) : option (jsstring * jsstring) :=
  let (sign, s1) :=
    match s with
    | c :: r => if (c =? 45)%N then ([c], r) else ([], s)
    | [] => ([], s)
    end in
  match parse_int s1 with
  | None => None
  | Some (i, s2) =>
      match parse_frac s2 with
      | None => None
      | Some (f, s3) =>
          match parse_exp s3 with
          | None => None
          | Some (e, s4) => Some (sign ++ i ++ f ++ e, s4)
          end
      end
  end.

Definition hex_digit (c : code_unit) : option N :=
  (if (48 <=? c) && (c <=? 57) then Some (c - 48)
   else if (65 <=? c) && (c <=? 70) then Some (c - 55)
   else if (97 <=? c) && (c <=? 102) then Some (c - 87)
   else None)%N.

Definition hex4 (a b c d : code_unit) : option code_unit :=
  match hex_digit a, hex_digit b, hex_digit c, hex_digit d with
  | Some x, Some y, Some z, Some w => Some (((x * 16 + y) * 16 + z) * 16 + w)%N
  | _, _, _, _ => None
  end.

Definition escape (c : code_unit) : option code_unit :=
  (if (c =? 34) || (c =? 92) || (c =? 47) then Some c
   else if c =? 98 then Some 8
   else if c =? 102 then Some 12
   else if c =? 110 then Some 10
   else if c =? 114 then Some 13
   else if c =? 116 then Some 9
   else None)%N.

(** The characters of a string literal, after its opening quote. *)
Fixpoint parse_chars (s : jsstring) : option (jsstring * jsstring) :=
  match s with
  | [] => None
  | c :: r =>
      if (c =? 34)%N then Some ([], r)
      else if (c =? 92)%N then
        match r with
        | e :: r1 =>
            if (e =? 117)%N then
              match r1 with
              | h1 :: h2 :: h3 :: h4 :: r2 =>
                  match hex4 h1 h2 h3 h4, parse_chars r2 with
                  | Some u, Some (cs, r3) => Some (u :: cs, r3)
                  | _, _ => None
                  end
              | _ => None
              end
            else
              match escape e, parse_chars r1 with
              | Some u, Some (cs, r2) => Some (u :: cs, r2)
              | _, _ => None
              end
        | [] => None
        end
      else if (c <? 32)%N then None
      else
        match parse_chars r with
        | Some (cs, r1) => Some (c :: cs, r1)
        | None => None
        end
  end.

Definition expect (w : string) (v : JSValue) (s : jsstring)
  : option (JSValue * jsstring) :=
  let n := List.length (lit w) in
  if eqb (firstn n s) (lit w) then Some (v, skipn n s) else None.

Fixpoint parse_value (fuel : nat) (s : jsstring) {struct fuel}
  : option (JSValue * jsstring) :=
  match fuel with
  | O => None
  | S f =>
      match skip_ws s with
      | [] => None
      | c :: r =>
          if (c =? 123)%N then
            match skip_ws r with
            | d :: r1 =>
                if (d =? 125)%N then Some (JObject [], r1)
                else match parse_members f (d :: r1) with
                     | Some (ms, r2) => Some (JObject ms, r2)
                     | None => None
                     end
            | [] => None
            end
          else if (c =? 91)%N then
            match skip_ws r with
            | d :: r1 =>
                if (d =? 93)%N then Some (JArray [], r1)
                else match parse_elements f (d :: r1) with
                     | Some (vs, r2) => Some (JArray vs, r2)
                     | None => None
                     end
            | [] => None
            end
          else if (c =? 34)%N then
            match parse_chars r with
            | Some (cs, r1) => Some (JString cs, r1)
            | None => None
            end
          else if (c =? 116)%N then expect "true" (JBool true) (c :: r)
          else if (c =? 102)%N then expect "false" (JBool false) (c :: r)
          else if (c =? 110)%N then expect "null" JNull (c :: r)
          else
            match parse_number (c :: r) with
            | Some (n, r1) => Some (JNumber n, r1)
            | None => None
            end
      end
  end

with parse_elements (fuel : nat) (s : jsstring) {struct fuel}
  : option (list JSValue * jsstring) :=
  match fuel with
  | O => None
  | S f =>
      match parse_value f s with
      | None => None
      | Some (v, r) =>
          match skip_ws r with
          | c :: r1 =>
              if (c =? 44)%N then
                match parse_elements f r1 with
                | Some (vs, r2) => Some (v :: vs, r2)
                | None => None
                end
              else if (c =? 93)%N then Some ([v], r1)
              else None
          | [] => None
          end
      end
  end

with parse_members (fuel : nat) (s : jsstring) {struct fuel}
  : option (list (jsstring * JSValue) * jsstring) :=
  match fuel with
  | O => None
  | S f =>
      match skip_ws s with
      | q :: r =>
          if (q =? 34)%N then
            match parse_chars r with
            | None => None
            | Some (k, r1) =>
                match skip_ws r1 with
                | c :: r2 =>
                    if (c =? 58)%N then
                      match parse_value f r2 with
                      | None => None
                      | Some (v, r3) =>
                          match skip_ws r3 with
                          | d :: r4 =>
                              if (d =? 44)%N then
                                match parse_members f r4 with
                                | Some (ms, r5) => Some ((k, v) :: ms, r5)
                                | None => None
                                end
                              else if (d =? 125)%N then Some ([(k, v)], r4)
                              else None
                          | [] => None
                          end
                      end
                    else None
                | [] => None
                end
            end
          else None
      | [] => None
      end
  end.

(** What a [throw] or a rejected promise carries. *)
Inductive Thrown : Type :=
| SyntaxError            (* thrown by [JSON.parse] *)
| Reason (r : jsstring). (* any other error value *)

(** Every nested call consumes input, at most two calls per code unit:
    this fuel is enough for any text. *)
Definition JSON_parse (text : jsstring) : JSValue + Thrown :=
  match parse_value (2 * List.length text) text with
  | Some (v, r) =>
      match skip_ws r with
      | [] => inl v
      | _ :: _ => inr SyntaxError
      end
  | None => inr SyntaxError
  end.

End JS.

Import JS.


(** ** The question form

    [useForm<z.infer<typeof QuestionSchema>>]: the values of the three fields
    and the field errors that react-hook-form keeps for them. *)
Record FieldError : Type := {
  type : jsstring;
  message : jsstring
}.

Record Values : Type := {
  title : jsstring;
  explanation : jsstring;
  tags : list jsstring
}.

Record Errors : Type := {
  title_error : option FieldError;
  explanation_error : option FieldError;
  tags_error : option FieldError
}.

Record Form : Type := {
  values : Values;
  errors : Errors
}.

Definition defaultValues : Values :=
  {| title := empty; explanation := empty; tags := [] |}.

Definition no_errors : Errors :=
  {| title_error := None; explanation_error := None; tags_error := None |}.

Definition isEmptyObject (e : Errors) : bool :=
  match title_error e, explanation_error e, tags_error e with
  | None, None, None => true
  | _, _, _ => false
  end.

Definition useForm : Form := {| values := defaultValues; errors := no_errors |}.

(** [form.setValue("tags", v)]: no validation is requested. *)
Definition setValue_tags (v : list jsstring) (form : Form) : Form :=
  {| values := {| title := title (values form);
                  explanation := explanation (values form);
                  tags := v |};
     errors := errors form |}.

Definition setValue_title (v : jsstring) (form : Form) : Form :=
  {| values := {| title := v;
                  explanation := explanation (values form);
                  tags := tags (values form) |};
     errors := errors form |}.

Definition setValue_explanation (v : jsstring) (form : Form) : Form :=
  {| values := {| title := title (values form);
                  explanation := v;
                  tags := tags (values form) |};
     errors := errors form |}.

Definition set_tags_error (e : option FieldError) (form : Form) : Form :=
  {| values := values form;
     errors := {| title_error := title_error (errors form);
                  explanation_error := explanation_error (errors form);
                  tags_error := e |} |}.

(** [form.setError("tags", e)] and [form.clearErrors("tags")]. *)
Definition setError_tags (e : FieldError) : Form -> Form := set_tags_error (Some e).
Definition clearErrors_tags : Form -> Form := set_tags_error None.

(** The [field] object a [FormField] render prop receives, as far as the
    handlers read it. *)
Record Field : Type := {
  name : jsstring;
  value : list jsstring
}.

(** The keyboard event: its key, the value of the input it targets, and
    whether [preventDefault] was called. *)
Record KeyboardEvent : Type := {
  key : jsstring;
  target_value : jsstring;
  defaultPrevented : bool
}.

Definition preventDefault (e : KeyboardEvent) : KeyboardEvent :=
  {| key := key e; target_value := target_value e; defaultPrevented := true |}.

Definition set_target_value (v : jsstring) (e : KeyboardEvent) : KeyboardEvent :=
  {| key := key e; target_value := v; defaultPrevented := defaultPrevented e |}.

Definition tag_too_long : FieldError :=
  {| type := lit "max";
     message := lit "Tag length must be less than 15 characters" |}.

(** [handleTagRemove]. *)
Definition handleTagRemove (tag : jsstring) (field : Field) (form : Form) : Form :=
  setValue_tags (filter (fun t => negb (eqb t tag)) (value field)) form.

(** The props of the component and what its hooks return. *)
Record Props : Type := {
  type_ : option unit;           (* [type?: "Edit"] *)
  mongoUserId : jsstring;
  questionDetails : option jsstring
}.

Record Payload : Type := {
  p_title : jsstring;
  p_content : jsstring;
  p_tags : list jsstring;
  p_author : JSValue;
  p_path : jsstring
}.

(** How the promise of [createQuestion] settles. *)
Inductive Outcome : Type :=
| Resolved
| Rejected (e : Thrown).

(** *** Asynchronous functions

    The body of an [async] function: synchronous commands on the component
    and its surroundings, and [await createQuestion(p)], at which the
    activation is suspended until the promise settles. *)
Inductive Cmd : Type :=
| SetSubmitting (b : bool)
| RouterPush (href : jsstring)
| ConsoleLog (e : Thrown).

Inductive Async (A : Type) : Type :=
| Ret (a : A)
| Throw (e : Thrown)
| Do (c : Cmd) (k : Async A)
| Await (p : Payload) (k : Outcome -> Async A).

Arguments Ret {A} a.
Arguments Throw {A} e.
Arguments Do {A} c k.
Arguments Await {A} p k.

Fixpoint bind {A B : Type} (m : Async A) (f : A -> Async B) : Async B :=
  match m with
  | Ret a => f a
  | Throw e => Throw e
  | Do c k => Do c (bind k f)
  | Await p k => Await p (fun o => bind (k o) f)
  end.

Notation "x <- m ;; k" := (bind m (fun x => k))
  (at level 61, m at next level, right associativity).
Notation "m ;; k" := (bind m (fun _ => k))
  (at level 61, right associativity).

Definition do_ (c : Cmd) : Async unit := Do c (Ret tt).

(** [await createQuestion(p)]: a rejection is thrown at the [await]. *)
Definition await_createQuestion (p : Payload) : Async unit :=
  Await p (fun o => match o with Resolved => Ret tt | Rejected e => Throw e end).

Definition of_result {A : Type} (r : A + Thrown) : Async A :=
  match r with inl a => Ret a | inr e => Throw e end.

Fixpoint try_catch {A : Type} (body : Async A) (handler : Thrown -> Async A)
  : Async A :=
  match body with
  | Ret a => Ret a
  | Throw e => handler e
  | Do c k => Do c (try_catch k handler)
  | Await p k => Await p (fun o => try_catch (k o) handler)
  end.

Fixpoint finally {A : Type} (body : Async A) (cleanup : Async unit) : Async A :=
  match body with
  | Ret a => cleanup ;; Ret a
  | Throw e => cleanup ;; Throw e
  | Do c k => Do c (finally k cleanup)
  | Await p k => Await p (fun o => finally (k o) cleanup)
  end.

Definition try_catch_finally {A : Type} (body : Async A)
    (handler : Thrown -> Async A) (cleanup : Async unit) : Async A :=
  finally (try_catch body handler) cleanup.

(** *** The component

    Its react-hook-form state, the DOM value of the (uncontrolled) tag
    input, the [submitting] state, the activations of [onSubmit] suspended
    at their [await] (oldest first), a log of what the component did to
    its collaborators, and the activations of [form.handleSubmit(onSubmit)]
    that await the resolver, each with the values it was started on (oldest
    first). *)
Inductive Effect : Type :=
| Called (p : Payload)       (* createQuestion(p) *)
| Pushed (href : jsstring)   (* router.push(href) *)
| Logged (e : Thrown).       (* console.log(e) *)

Record Question : Type := {
  form : Form;
  tagInput : jsstring;
  submitting : bool;
  outstanding : list (Outcome -> Async unit);
  trace : list Effect;
  validating : list Values
}.

Definition mount : Question :=
  {| form := useForm; tagInput := empty; submitting := false;
     outstanding := []; trace := []; validating := [] |}.

Definition with_form (f : Form) (q : Question) : Question :=
  {| form := f; tagInput := tagInput q; submitting := submitting q;
     outstanding := outstanding q; trace := trace q;
     validating := validating q |}.

Definition with_tagInput (s : jsstring) (q : Question) : Question :=
  {| form := form q; tagInput := s; submitting := submitting q;
     outstanding := outstanding q; trace := trace q;
     validating := validating q |}.

Definition with_outstanding (l : list (Outcome -> Async unit)) (q : Question)
  : Question :=
  {| form := form q; tagInput := tagInput q; submitting := submitting q;
     outstanding := l; trace := trace q; validating := validating q |}.

Definition log (x : Effect) (q : Question) : Question :=
  {| form := form q; tagInput := tagInput q; submitting := submitting q;
     outstanding := outstanding q; trace := trace q ++ [x];
     validating := validating q |}.

Definition with_validating (l : list Values) (q : Question) : Question :=
  {| form := form q; tagInput := tagInput q; submitting := submitting q;
     outstanding := outstanding q; trace := trace q; validating := l |}.

Definition perform (c : Cmd) (q : Question) : Question :=
  match c with
  | SetSubmitting b =>
      {| form := form q; tagInput := tagInput q; submitting := b;
         outstanding := outstanding q; trace := trace q;
         validating := validating q |}
  | RouterPush href => log (Pushed href) q
  | ConsoleLog e => log (Logged e) q
  end.

Inductive Completion : Type :=
| Completed
| Uncaught (e : Thrown)
| Suspended.

(** Runs an activation up to its end or its first [await]. *)
Fixpoint exec (m : Async unit) (q : Question) : Question * Completion :=
  match m with
  | Ret _ => (q, Completed)
  | Throw e => (q, Uncaught e)
  | Do c k => exec k (perform c q)
  | Await p k => (with_outstanding (outstanding q ++ [k]) (log (Called p) q), Suspended)
  end.

Definition calls (t : list Effect) : list Payload :=
  flat_map (fun x => match x with Called p => [p] | _ => [] end) t.

Definition pushes (t : list Effect) : list jsstring :=
  flat_map (fun x => match x with Pushed h => [h] | _ => [] end) t.

Fixpoint remove_nth {A : Type} (i : nat) (l : list A) : list A :=
  match l, i with
  | [], _ => []
  | _ :: r, O => r
  | x :: r, S j => x :: remove_nth j r
  end.

Definition current_tags (q : Question) : list jsstring := tags (values (form q)).

Definition jsstring_eq_dec : forall a b : jsstring, {a = b} + {a <> b} :=
  list_eq_dec N.eq_dec.

(** What the user and the outside can do to the mounted component. *)
Inductive Event : Type :=
| TitleChange (s : jsstring)       (* the title [Input], [{...field}] *)
| EditorChange (content : jsstring) (* [onEditorChange] *)
| TagInput (s : jsstring)          (* typing in the tag [Input] *)
| TagKeyDown (k : jsstring)        (* [onKeyDown] of the tag [Input] *)
| BadgeClick (tag : jsstring)      (* [onClick] of a rendered [Badge] *)
| SubmitClick                      (* a submit event whose resolver settles at once *)
| Settled (i : nat) (o : Outcome)  (* the promise of the i-th suspended activation settles *)
| Submit                           (* the submit event (button or implicit submission) alone *)
| Validated (i : nat).             (* the resolver of the i-th awaiting submit settles *)

Section Question.

(** [zodResolver(QuestionSchema)] (from [@/lib/validation]): the errors of
    each field, all absent when the values pass. *)
Variable QuestionSchema : Values -> Errors.
Variable props : Props.
(** [usePathname()]. *)
Variable pathname : jsstring.

(** [form.trigger("tags")]. *)
Definition trigger_tags (form : Form) : Form :=
  set_tags_error (tags_error (QuestionSchema (values form))) form.

Definition onSubmit (values : Values) : Async unit :=
  do_ (SetSubmitting true) ;;
  try_catch_finally
    (author <- of_result (JSON_parse (mongoUserId props)) ;;
     await_createQuestion
       {| p_title := title values;
          p_content := explanation values;
          p_tags := tags values;
          p_author := author;
          p_path := pathname |} ;;
     do_ (RouterPush (lit "/")))
    (fun error => do_ (ConsoleLog error))
    (do_ (SetSubmitting false)).

Definition handleInoutKeyDown (e : KeyboardEvent) (field : Field) (form : Form)
  : Form * KeyboardEvent :=
  if eqb (key e) (lit "Enter") && eqb (name field) (lit "tags") then
    let e := preventDefault e in
    let tag := trim (target_value e) in
    if negb (eqb tag empty) then
      if (15 <? List.length tag)%nat then
        (setError_tags tag_too_long form, e)
      else if negb (includes (value field) tag) then
        (clearErrors_tags (setValue_tags (value field ++ [tag]) form),
         set_target_value empty e)
      else (form, e)
    else (trigger_tags form, e)
  else (form, e).

(** [form.handleSubmit(onSubmit)] is asynchronous.  At the submit event it
    hands the current values to the resolver and awaits it; nothing of the
    component has changed by then, [submitting] included. *)
Definition handleSubmit (q : Question) : Question :=
  with_validating (validating q ++ [values (form q)]) q.

(** When the resolver has settled for the values [v]: its errors replace
    the form's, and [onValid] is called with [v] when there is none. *)
Definition handleSubmit_resolved (onValid : Values -> Async unit) (v : Values)
    (q : Question) : Question * Completion :=
  let errs := QuestionSchema v in
  let q' := with_form {| values := values (form q); errors := errs |} q in
  if isEmptyObject errs then exec (onValid v) q'
  else (q', Completed).

(** The [field] of the tags [FormField]. *)
Definition tags_field (q : Question) : Field :=
  {| name := lit "tags"; value := tags (values (form q)) |}.

(** The form's submit event reaches [handleSubmit] while the submit button
    is not [disabled={submitting}]. *)
Definition submit_event (q : Question) : option Question :=
  if submitting q then None else Some (handleSubmit q).

(** The resolver of the [i]-th awaiting submit settles. *)
Definition resolver_settled (i : nat) (q : Question) : option Question :=
  match nth_error (validating q) i with
  | Some v =>
      Some (fst (handleSubmit_resolved onSubmit v
                   (with_validating (remove_nth i (validating q)) q)))
  | None => None
  end.

(** One event on the rendered component; [None] when the rendered tree
    does not offer it: the submit button is [disabled={submitting}], a
    badge exists for each current tag only.  Events reach the tree rendered
    from the current state, and a handler runs to its end or to its [await]
    before the next event.  [Submit] and [Validated] are the two halves of
    a submit, between which other events may come, a further [Submit]
    among them since [submitting] is raised by [onSubmit] only;
    [SubmitClick] is a submit whose resolver settles before anything else
    happens.  The title and the editor write their values
    through [field.onChange]; what react-hook-form may re-validate after a
    change concerns the error of the changed field only and is left out. *)
Definition step (ev : Event) (q : Question) : option Question :=
  match ev with
  | TitleChange s => Some (with_form (setValue_title s (form q)) q)
  | EditorChange s => Some (with_form (setValue_explanation s (form q)) q)
  | TagInput s => Some (with_tagInput s q)
  | TagKeyDown k =>
      let e := {| key := k; target_value := tagInput q;
                  defaultPrevented := false |} in
      let (f, e') := handleInoutKeyDown e (tags_field q) (form q) in
      Some (with_tagInput (target_value e') (with_form f q))
  | BadgeClick tag =>
      if includes (tags (values (form q))) tag
      then Some (with_form (handleTagRemove tag (tags_field q) (form q)) q)
      else None
  | SubmitClick =>
      match submit_event q with
      | Some q1 => resolver_settled (List.length (validating q)) q1
      | None => None
      end
  | Settled i o =>
      match nth_error (outstanding q) i with
      | Some k => Some (fst (exec (k o) (with_outstanding (remove_nth i (outstanding q)) q)))
      | None => None
      end
  | Submit => submit_event q
  | Validated i => resolver_settled i q
  end.

Fixpoint run (evs : list Event) (q : Question) : option Question :=
  match evs with
  | [] => Some q
  | ev :: rest =>
      match step ev q with
      | Some q' => run rest q'
      | None => None
      end
  end.

Definition Reachable (q : Question) : Prop :=
  exists evs, run evs mount = Some q.

(** The argument of [createQuestion] in [onSubmit]. *)
Definition payload (vals : Values) (author : JSValue) : Payload :=
  {| p_title := title vals;
     p_content := explanation vals;
     p_tags := tags vals;
     p_author := author;
     p_path := pathname |}.

(** What the rest of [onSubmit] does once the promise has settled:
    [router.push("/")] or [console.log(error)], then the [finally] block. *)
Definition after_await (o : Outcome) (q : Question) : Question :=
  perform (SetSubmitting false)
    (log (match o with
          | Resolved => Pushed (lit "/")
          | Rejected e => Logged e
          end) q).

Definition resumes_onSubmit (k : Outcome -> Async unit) : Prop :=
  forall (o : Outcome) (q : Question), exec (k o) q = (after_await o q, Completed).

(** What holds of the suspended activations in every reachable state: each
    is an [onSubmit] past its [await]. *)
Definition resuming_invariant (q : Question) : Prop :=
  Forall resumes_onSubmit (outstanding q).

(** What holds besides as long as no submit event came while an earlier
    one awaited its resolver: there is one suspended activation exactly
    while [submitting] is set, and no submit awaits its resolver. *)
Definition in_flight_invariant (q : Question) : Prop :=
  Forall resumes_onSubmit (outstanding q) /\
  List.length (outstanding q) = (if submitting q then 1 else 0) /\
  validating q = [].

(** The events of a run in which every submit is a [SubmitClick]. *)
Definition one_at_a_time (ev : Event) : Prop :=
  match ev with
  | Submit | Validated _ => False
  | _ => True
  end.

(** Add tag: the user types [raw] in the tag input and presses Enter. *)
Definition add_tag (raw : jsstring) : list Event :=
  [TagInput raw; TagKeyDown (lit "Enter")].

(** Remove tag: the user clicks the badge of [tag]. *)
Definition remove_tag (tag : jsstring) : list Event := [BadgeClick tag].

(** The Enter key-downs on the tag input among a sequence of events. *)
Definition is_add (ev : Event) : bool :=
  match ev with
  | TagKeyDown k => eqb k (lit "Enter")
  | _ => false
  end.

Definition adds (evs : list Event) : nat := List.length (filter is_add evs).

End Question.

(** ** The theme state holder *)
Module Theme.

(** [useState("light")], the dependency the effect last ran with (none
    before the first commit), and [document.documentElement.classList]. *)
Record ThemeProvider : Type := {
  mode : jsstring;
  deps : option jsstring;
  classList : list jsstring
}.

Definition classList_add (token : jsstring) (cl : list jsstring) : list jsstring :=
  if includes cl token then cl else cl ++ [token].

Definition classList_remove (token : jsstring) (cl : list jsstring) : list jsstring :=
  filter (fun t => negb (eqb t token)) cl.

(** The body of the effect: the state it hands to [setMode] and the class
    list it leaves. *)
Definition effect (mode : jsstring) (cl : list jsstring) : jsstring * list jsstring :=
  if eqb mode (lit "light") then (lit "dark", classList_add (lit "dark") cl)
  else (lit "light", classList_remove (lit "dark") cl).

Definition same_deps (old : option jsstring) (now : jsstring) : bool :=
  match old with
  | Some m => eqb m now
  | None => false
  end.

(** One commit after a render: [useEffect(..., [mode])] runs the effect on
    mount and whenever [mode] differs from the last run; the state given to
    [setMode] is the state of the next render.  [None]: no effect is due. *)
Definition commit (t : ThemeProvider) : option ThemeProvider :=
  if same_deps (deps t) (mode t) then None
  else
    let (m, cl) := effect (mode t) (classList t) in
    Some {| mode := m; deps := Some (mode t); classList := cl |}.

Fixpoint commits (n : nat) (t : ThemeProvider) : option ThemeProvider :=
  match n with
  | O => Some t
  | S k =>
      match commits k t with
      | Some t' => commit t'
      | None => None
      end
  end.

Definition first_render (cl : list jsstring) : ThemeProvider :=
  {| mode := lit "light"; deps := None; classList := cl |}.

End Theme.

(** ** A concrete setting, for the scenarios *)

(** Modelled from the spec: the schema of [@/lib/validation], which is not
    among the sources, "validates against the external schema (required
    title, required explanation with minimum length, tags array present)";
    the hint under the editor gives the minimum as 20 characters. *)
Definition QuestionSchema_spec (v : Values) : Errors :=
  {| title_error :=
       if eqb (title v) empty then
         Some {| type := lit "required"; message := lit "Title is required" |}
       else None;
     explanation_error :=
       if (List.length (explanation v) <? 20)%nat then
         Some {| type := lit "min"; message := lit "Minimum 20 characters" |}
       else None;
     tags_error := None |}.

(** The JSON text of a string without quotes, backslashes or control
    characters in it. *)
Definition quoted (s : jsstring) : jsstring := 34%N :: s ++ [34%N].

(** The form as the ask-question page mounts it, the author id
    stringified. *)
Definition ask_props : Props :=
  {| type_ := None;
     mongoUserId := quoted (lit "507f1f77bcf86cd799439011");
     questionDetails := None |}.

(** The same with the author id passed as it is, not as a JSON text. *)
Definition raw_id_props : Props :=
  {| type_ := None;
     mongoUserId := lit "507f1f77bcf86cd799439011";
     questionDetails := None |}.

Definition ask_path : jsstring := lit "/ask-question".

Definition write_draft : list Event :=
  [TitleChange (lit "How to center a div in CSS?");
   EditorChange (lit "<p>I tried margin auto and flexbox.</p>")]
  ++ add_tag (lit " css ").

Definition state_after (p : Props) (evs : list Event) : Question :=
  match run QuestionSchema_spec p ask_path evs mount with
  | Some q => q
  | None => mount
  end.

(** ** Notions for the further properties *)

(** The string is empty or begins with a code unit that [trim] keeps. *)
Definition starts_clean (s : jsstring) : Prop :=
  match s with
  | c :: _ => is_white_space c = false
  | [] => True
  end.

(** What [handleInoutKeyDown] lets through as a tag. *)
Definition well_formed_tag (t : jsstring) : Prop :=
  1 <= List.length t <= 15 /\ trim t = t /\
  starts_clean t /\ starts_clean (rev t).

Definition logs (t : list Effect) : list Thrown :=
  flat_map (fun x => match x with Logged e => [e] | _ => [] end) t.

(** The form values a payload was built from. *)
Definition draft_of (p : Payload) : Values :=
  {| title := p_title p; explanation := p_content p; tags := p_tags p |}.

(** A code unit that stands for itself inside a JSON string literal. *)
Definition plain (c : code_unit) : bool :=
  ((32 <=? c) && negb (c =? 34) && negb (c =? 92))%N.

Section PayloadNotions.

Variable QuestionSchema : Values -> Errors.
Variable props : Props.
Variable pathname : jsstring.

Definition well_formed_payload (p : Payload) : Prop :=
  isEmptyObject (QuestionSchema (draft_of p)) = true /\
  JSON_parse (mongoUserId props) = inl (p_author p) /\
  p_path p = pathname /\
  NoDup (p_tags p) /\
  Forall well_formed_tag (p_tags p).

End PayloadNotions.

(** A state of the theme provider as a run of the effect leaves it. *)
Definition after_effect (t : Theme.ThemeProvider) : Prop :=
  (Theme.mode t = lit "light" \/ Theme.mode t = lit "dark") /\
  (exists d, Theme.deps t = Some d /\ eqb d (Theme.mode t) = false) /\
  includes (Theme.classList t) (lit "dark") = eqb (Theme.mode t) (lit "dark").

(** * Properties *)

(** ** Strings *)

Lemma str_eqb_eq (a b : jsstring) : eqb a b = true <-> a = b.
Proof.
  revert b; induction a as [|x a IH]; intros [|y b]; simpl;
    try (split; [discriminate | congruence]); try tauto.
  rewrite andb_true_iff, N.eqb_eq, IH. split.
  - intros [-> ->]; reflexivity.
  - intros H; injection H; auto.
Qed.

Lemma str_eqb_refl (a : jsstring) : eqb a a = true.
Proof. apply str_eqb_eq; reflexivity. Qed.

Lemma str_eqb_neq (a b : jsstring) : eqb a b = false <-> a <> b.
Proof.
  rewrite <- str_eqb_eq. destruct (eqb a b); split; congruence.
Qed.

Lemma includes_In (l : list jsstring) (x : jsstring) :
  includes l x = true <-> In x l.
Proof.
  unfold includes. rewrite existsb_exists. split.
  - intros (y & Hy & E). apply str_eqb_eq in E. subst; assumption.
  - intros H. exists x. split; [assumption | apply str_eqb_refl].
Qed.

Lemma includes_not_In (l : list jsstring) (x : jsstring) :
  includes l x = false <-> ~ In x l.
Proof.
  rewrite <- includes_In. destruct (includes l x); split; congruence.
Qed.

Example trim_css : trim (lit "  css ") = lit "css".
Proof. reflexivity. Qed.

Lemma is_empty_string (s : jsstring) : eqb s empty = false <-> s <> [].
Proof. apply str_eqb_neq. Qed.

(** ** [JSON.parse]: the fuel of [parse_value] is enough

    A successful parse consumes input, and succeeds alike with any fuel of
    at least twice what it consumes. *)

Lemma skip_ws_length (s : jsstring) : List.length (skip_ws s) <= List.length s.
Proof.
  induction s as [|c r IH]; simpl; [lia|].
  destruct (is_json_ws c); simpl; lia.
Qed.

Lemma span_digits_length (s ds r : jsstring) :
  span_digits s = (ds, r) -> List.length r <= List.length s.
Proof.
  revert ds r; induction s as [|c s IH]; simpl; intros ds r.
  - intros [= _ <-]. simpl; lia.
  - destruct (is_digit c).
    + destruct (span_digits s) as [ds' r'] eqn:E. intros [= _ <-].
      specialize (IH _ _ eq_refl). lia.
    + intros [= _ <-]. simpl; lia.
Qed.

Lemma parse_int_length (s i r : jsstring) :
  parse_int s = Some (i, r) -> List.length r < List.length s.
Proof.
  destruct s as [|c s]; simpl; [discriminate|].
  destruct (c =? 48)%N; [intros [= _ <-]; lia|].
  destruct (is_digit c); [|discriminate].
  destruct (span_digits s) as [ds r'] eqn:E. intros [= _ <-].
  apply span_digits_length in E. lia.
Qed.

Lemma parse_frac_length (s f r : jsstring) :
  parse_frac s = Some (f, r) -> List.length r <= List.length s.
Proof.
  destruct s as [|c s]; simpl; [intros [= _ <-]; simpl; lia|].
  destruct (c =? 46)%N; [|intros [= _ <-]; simpl; lia].
  destruct (span_digits s) as [[|d ds] r'] eqn:E; [discriminate|].
  intros [= _ <-]. apply span_digits_length in E. lia.
Qed.

Lemma parse_exp_length (s e r : jsstring) :
  parse_exp s = Some (e, r) -> List.length r <= List.length s.
Proof.
  destruct s as [|c s]; simpl; [intros [= _ <-]; simpl; lia|].
  destruct ((c =? 101) || (c =? 69))%N; [|intros [= _ <-]; simpl; lia].
  destruct s as [|d s1].
  - simpl. discriminate.
  - destruct ((d =? 43) || (d =? 45))%N.
    + destruct (span_digits s1) as [[|x ds] r'] eqn:E; [discriminate|].
      intros [= _ <-]. apply span_digits_length in E. simpl; lia.
    + destruct (span_digits (d :: s1)) as [[|x ds] r'] eqn:E; [discriminate|].
      intros [= _ <-]. apply span_digits_length in E. simpl in *; lia.
Qed.

Lemma parse_number_length (s n r : jsstring) :
  parse_number s = Some (n, r) -> List.length r < List.length s.
Proof.
  unfold parse_number.
  assert (H : forall sign s1, List.length s1 <= List.length s ->
     match parse_int s1 with
     | Some (i, s2) =>
       match parse_frac s2 with
       | Some (f, s3) =>
           match parse_exp s3 with
           | Some (e, s4) => Some (sign ++ i ++ f ++ e, s4)
           | None => None
           end
       | None => None
       end
     | None => None
     end = Some (n, r) -> List.length r < List.length s).
  { intros sign s1 Hl.
    destruct (parse_int s1) as [[i s2]|] eqn:E1; [|discriminate].
    destruct (parse_frac s2) as [[f s3]|] eqn:E2; [|discriminate].
    destruct (parse_exp s3) as [[e s4]|] eqn:E3; [|discriminate].
    intros [= _ <-].
    apply parse_int_length in E1. apply parse_frac_length in E2.
    apply parse_exp_length in E3. lia. }
  destruct s as [|c s']; [apply H; simpl; lia|].
  destruct (c =? 45)%N; apply H; simpl; lia.
Qed.

Lemma parse_chars_length (s cs r : jsstring) :
  parse_chars s = Some (cs, r) -> List.length r < List.length s.
Proof.
  remember (List.length s) as n eqn:Hn.
  assert (Hle : List.length s <= n) by lia. clear Hn.
  revert s cs r Hle. induction n as [|n IH]; intros s cs r Hle.
  - destruct s; [discriminate | simpl in Hle; lia].
  - destruct s as [|c s]; [discriminate|]. simpl in Hle.
    cbn [parse_chars].
    destruct (c =? 34)%N; [intros [= _ <-]; simpl; lia|].
    destruct (c =? 92)%N.
    + destruct s as [|e s1]; [discriminate|].
      destruct (e =? 117)%N.
      * destruct s1 as [|h1 [|h2 [|h3 [|h4 s2]]]]; try discriminate.
        destruct (hex4 h1 h2 h3 h4); [|discriminate].
        destruct (parse_chars s2) as [[cs' r']|] eqn:E; [|discriminate].
        intros [= _ <-]. apply IH in E; simpl in *; lia.
      * destruct (escape e); [|discriminate].
        destruct (parse_chars s1) as [[cs' r']|] eqn:E; [|discriminate].
        intros [= _ <-]. apply IH in E; simpl in *; lia.
    + destruct (c <? 32)%N; [discriminate|].
      destruct (parse_chars s) as [[cs' r']|] eqn:E; [|discriminate].
      intros [= _ <-]. apply IH in E; simpl in *; lia.
Qed.

Lemma eqb_length (a b : jsstring) :
  eqb a b = true -> List.length a = List.length b.
Proof. intros H. apply str_eqb_eq in H. congruence. Qed.

Lemma expect_length (w : string) (v v' : JSValue) (s r : jsstring) :
  lit w <> [] ->
  expect w v s = Some (v', r) -> List.length r < List.length s.
Proof.
  unfold expect. cbv zeta. intros Hw.
  destruct (eqb _ _) eqn:E; [|discriminate].
  intros [= _ <-]. apply eqb_length in E.
  rewrite length_skipn. rewrite length_firstn in E.
  destruct (lit w) as [|x l]; [congruence|].
  cbn [List.length] in *. lia.
Qed.

Ltac use_length :=
  repeat match goal with
  | H : skip_ws ?s = _ |- _ =>
      let L := fresh "L" in
      pose proof (skip_ws_length s) as L; rewrite H in L; revert H
  | H : parse_chars _ = Some _ |- _ => apply parse_chars_length in H
  | H : parse_number _ = Some _ |- _ => apply parse_number_length in H
  | H : expect _ _ _ = Some _ |- _ => apply expect_length in H; [|discriminate]
  end; intros; cbn [List.length] in *.

Lemma parse_consumes (F : nat) :
  (forall s v r, parse_value F s = Some (v, r) -> List.length r < List.length s) /\
  (forall s vs r, parse_elements F s = Some (vs, r) -> List.length r < List.length s) /\
  (forall s ms r, parse_members F s = Some (ms, r) -> List.length r < List.length s).
Proof.
  induction F as [|F (IHv & IHe & IHm)]; [repeat split; discriminate|].
  repeat split.
  - intros s v r. cbn [parse_value].
    destruct (skip_ws s) as [|c r0] eqn:Hs; [discriminate|].
    destruct (c =? 123)%N.
    { destruct (skip_ws r0) as [|d r1] eqn:Hs1; [discriminate|].
      destruct (d =? 125)%N; [intros [= _ <-]; use_length; lia|].
      destruct (parse_members F (d :: r1)) as [[ms r2]|] eqn:E; [|discriminate].
      intros [= _ <-]. apply IHm in E. use_length; lia. }
    destruct (c =? 91)%N.
    { destruct (skip_ws r0) as [|d r1] eqn:Hs1; [discriminate|].
      destruct (d =? 93)%N; [intros [= _ <-]; use_length; lia|].
      destruct (parse_elements F (d :: r1)) as [[vs r2]|] eqn:E; [|discriminate].
      intros [= _ <-]. apply IHe in E. use_length; lia. }
    destruct (c =? 34)%N.
    { destruct (parse_chars r0) as [[cs r1]|] eqn:E; [|discriminate].
      intros [= _ <-]. use_length; lia. }
    destruct (c =? 116)%N; [intros E; use_length; lia|].
    destruct (c =? 102)%N; [intros E; use_length; lia|].
    destruct (c =? 110)%N; [intros E; use_length; lia|].
    destruct (parse_number (c :: r0)) as [[n r1]|] eqn:E; [|discriminate].
    intros [= _ <-]. use_length; lia.
  - intros s vs r. cbn [parse_elements].
    destruct (parse_value F s) as [[v r0]|] eqn:E; [|discriminate].
    apply IHv in E.
    destruct (skip_ws r0) as [|c r1] eqn:Hs; [discriminate|].
    destruct (c =? 44)%N.
    { destruct (parse_elements F r1) as [[vs' r2]|] eqn:E2; [|discriminate].
      intros [= _ <-]. apply IHe in E2. use_length; lia. }
    destruct (c =? 93)%N; [|discriminate].
    intros [= _ <-]. use_length; lia.
  - intros s ms r. cbn [parse_members].
    destruct (skip_ws s) as [|q r0] eqn:Hs; [discriminate|].
    destruct (q =? 34)%N; [|discriminate].
    destruct (parse_chars r0) as [[k r1]|] eqn:Ek; [|discriminate].
    destruct (skip_ws r1) as [|c r2] eqn:Hs1; [discriminate|].
    destruct (c =? 58)%N; [|discriminate].
    destruct (parse_value F r2) as [[v r3]|] eqn:Ev; [|discriminate].
    apply IHv in Ev.
    destruct (skip_ws r3) as [|d r4] eqn:Hs3; [discriminate|].
    destruct (d =? 44)%N.
    { destruct (parse_members F r4) as [[ms' r5]|] eqn:Em; [|discriminate].
      intros [= _ <-]. apply IHm in Em. use_length; lia. }
    destruct (d =? 125)%N; [|discriminate].
    intros [= _ <-]. use_length; lia.
Qed.

Lemma parse_fuel (F : nat) :
  (forall s v r f, parse_value F s = Some (v, r) ->
     2 * (List.length s - List.length r) <= f -> parse_value f s = Some (v, r)) /\
  (forall s vs r f, parse_elements F s = Some (vs, r) ->
     2 * (List.length s - List.length r) <= f -> parse_elements f s = Some (vs, r)) /\
  (forall s ms r f, parse_members F s = Some (ms, r) ->
     2 * (List.length s - List.length r) <= f -> parse_members f s = Some (ms, r)).
Proof.
  induction F as [|F (IHv & IHe & IHm)]; [repeat split; discriminate|].
  destruct (parse_consumes F) as (Cv & Ce & Cm).
  repeat split.
  - intros s v r f H Hf.
    pose proof (proj1 (parse_consumes (S F)) _ _ _ H) as Hc.
    destruct f as [|f]; [lia|].
    revert H. cbn [parse_value].
    destruct (skip_ws s) as [|c r0] eqn:Hs; [discriminate|].
    destruct (c =? 123)%N.
    { destruct (skip_ws r0) as [|d r1] eqn:Hs1; [discriminate|].
      destruct (d =? 125)%N; [auto|].
      destruct (parse_members F (d :: r1)) as [[ms r2]|] eqn:E; [|discriminate].
      pose proof (Cm _ _ _ E) as Lm.
      intros [= <- <-]. rewrite (IHm _ _ _ f E); [reflexivity|].
      use_length; lia. }
    destruct (c =? 91)%N.
    { destruct (skip_ws r0) as [|d r1] eqn:Hs1; [discriminate|].
      destruct (d =? 93)%N; [auto|].
      destruct (parse_elements F (d :: r1)) as [[vs r2]|] eqn:E; [|discriminate].
      pose proof (Ce _ _ _ E) as Le.
      intros [= <- <-]. rewrite (IHe _ _ _ f E); [reflexivity|].
      use_length; lia. }
    auto.
  - intros s vs r f H Hf.
    pose proof (proj1 (proj2 (parse_consumes (S F))) _ _ _ H) as Hc.
    destruct f as [|f]; [lia|].
    revert H. cbn [parse_elements].
    destruct (parse_value F s) as [[v r0]|] eqn:E; [|discriminate].
    pose proof (Cv _ _ _ E) as Lv.
    destruct (skip_ws r0) as [|c r1] eqn:Hs; [discriminate|].
    destruct (c =? 44)%N eqn:Hc44.
    { destruct (parse_elements F r1) as [[vs' r2]|] eqn:E2; [|discriminate].
      pose proof (Ce _ _ _ E2) as Le.
      intros [= <- <-].
      rewrite (IHv _ _ _ f E); [|use_length; lia].
      rewrite Hs, Hc44.
      rewrite (IHe _ _ _ f E2); [reflexivity|use_length; lia]. }
    destruct (c =? 93)%N eqn:Hc93; [|discriminate].
    intros [= <- <-].
    rewrite (IHv _ _ _ f E); [|use_length; lia].
    rewrite Hs, Hc44, Hc93. reflexivity.
  - intros s ms r f H Hf.
    pose proof (proj2 (proj2 (parse_consumes (S F))) _ _ _ H) as Hc.
    destruct f as [|f]; [lia|].
    revert H. cbn [parse_members].
    destruct (skip_ws s) as [|q r0] eqn:Hs; [discriminate|].
    destruct (q =? 34)%N; [|discriminate].
    destruct (parse_chars r0) as [[k r1]|] eqn:Ek; [|discriminate].
    destruct (skip_ws r1) as [|c r2] eqn:Hs1; [discriminate|].
    destruct (c =? 58)%N; [|discriminate].
    destruct (parse_value F r2) as [[v r3]|] eqn:Ev; [|discriminate].
    pose proof (Cv _ _ _ Ev) as Lv.
    destruct (skip_ws r3) as [|d r4] eqn:Hs3; [discriminate|].
    destruct (d =? 44)%N eqn:Hd.
    { destruct (parse_members F r4) as [[ms' r5]|] eqn:Em; [|discriminate].
      pose proof (Cm _ _ _ Em) as Lm.
      intros [= <- <-].
      rewrite (IHv _ _ _ f Ev); [|use_length; lia].
      rewrite Hs3, Hd.
      rewrite (IHm _ _ _ f Em); [reflexivity|use_length; lia]. }
    destruct (d =? 125)%N eqn:Hd'; [|discriminate].
    intros [= <- <-].
    rewrite (IHv _ _ _ f Ev); [|use_length; lia].
    rewrite Hs3, Hd, Hd'. reflexivity.
Qed.

(** More fuel than [JSON_parse] takes never changes the result. *)
Theorem JSON_parse_fuel (text : jsstring) (F : nat) :
  2 * List.length text <= F ->
  parse_value F text = parse_value (2 * List.length text) text.
Proof.
  intros HF.
  destruct (parse_value F text) as [[v r]|] eqn:E.
  - symmetry. apply (proj1 (parse_fuel F) _ _ _ _ E). lia.
  - destruct (parse_value (2 * List.length text) text) as [[v r]|] eqn:E';
      [|reflexivity].
    rewrite (proj1 (parse_fuel _) _ _ _ F E') in E; [discriminate | lia].
Qed.

(** ** The tag editor *)
Section TagEditor.

Variable QuestionSchema : Values -> Errors.
Variable props : Props.
Variable pathname : jsstring.

Local Abbreviation stepQ := (step QuestionSchema props pathname).
Local Abbreviation runQ := (run QuestionSchema props pathname).
Local Abbreviation ReachableQ := (Reachable QuestionSchema props pathname).

(** What Enter in the tag input does, case by case. *)
Lemma add_tag_cases (q : Question) (raw : jsstring) :
  runQ (add_tag raw) q =
  Some (let tag := trim raw in
        if eqb tag empty then
          with_tagInput raw (with_form (trigger_tags QuestionSchema (form q)) q)
        else if (15 <? List.length tag)%nat then
          with_tagInput raw (with_form (setError_tags tag_too_long (form q)) q)
        else if includes (current_tags q) tag then
          with_tagInput raw q
        else
          with_tagInput empty
            (with_form (clearErrors_tags
                          (setValue_tags (current_tags q ++ [tag]) (form q))) q)).
Proof.
  unfold add_tag, current_tags. cbn [run step].
  unfold handleInoutKeyDown.
  cbn [key name tags_field target_value preventDefault with_tagInput tagInput
       value form with_form].
  rewrite !str_eqb_refl. cbn [andb].
  destruct (eqb (trim raw) empty); cbn [negb]; [reflexivity|].
  destruct (15 <? List.length (trim raw))%nat; [reflexivity|].
  destruct (includes (tags (values (form q))) (trim raw)); cbn [negb];
    [destruct q|]; reflexivity.
Qed.

(** Any other key, or a key event of another field, is ignored. *)
Lemma other_key_ignored (e : KeyboardEvent) (field : Field) (f : Form) :
  eqb (key e) (lit "Enter") && eqb (name field) (lit "tags") = false ->
  handleInoutKeyDown QuestionSchema e field f = (f, e).
Proof. unfold handleInoutKeyDown. intros ->. reflexivity. Qed.

(** C2: a raw input whose trimmed value is non-empty, at most 15 code units
    long and not among the current tags is appended at the end by Add tag:
    the sequence grows by exactly one, the earlier tags stay in place, the
    input is emptied and the error of the tags field is cleared. *)
Theorem add_tag_appends (q : Question) (raw : jsstring) :
  trim raw <> [] ->
  List.length (trim raw) <= 15 ->
  ~ In (trim raw) (current_tags q) ->
  exists q',
    runQ (add_tag raw) q = Some q' /\
    current_tags q' = current_tags q ++ [trim raw] /\
    List.length (current_tags q') = S (List.length (current_tags q)) /\
    firstn (List.length (current_tags q)) (current_tags q') = current_tags q /\
    tagInput q' = empty /\
    tags_error (errors (form q')) = None.
Proof.
  intros Hne Hlen Hnew.
  rewrite add_tag_cases. cbv zeta.
  apply is_empty_string in Hne. rewrite Hne.
  apply Nat.ltb_ge in Hlen. rewrite Hlen.
  apply includes_not_In in Hnew. rewrite Hnew.
  eexists. split; [reflexivity|].
  unfold current_tags at 1 3 4; cbn.
  repeat split.
  - rewrite length_app. simpl. lia.
  - rewrite firstn_app, Nat.sub_diag, firstn_all. simpl. apply app_nil_r.
Qed.

(** C3: a raw input whose trimmed value is longer than 15 code units leaves
    the tags as they are, and the tags field gets the error "Tag length must
    be less than 15 characters". *)
Theorem add_long_tag_rejected (q : Question) (raw : jsstring) :
  15 < List.length (trim raw) ->
  exists q',
    runQ (add_tag raw) q = Some q' /\
    current_tags q' = current_tags q /\
    tags_error (errors (form q')) =
      Some {| type := lit "max";
              message := lit "Tag length must be less than 15 characters" |}.
Proof.
  intros Hlen.
  rewrite add_tag_cases. cbv zeta.
  assert (Hne : eqb (trim raw) empty = false).
  { apply is_empty_string. intros E. rewrite E in Hlen. simpl in Hlen. lia. }
  rewrite Hne. apply Nat.ltb_lt in Hlen. rewrite Hlen.
  eexists. split; [reflexivity|]. split; reflexivity.
Qed.

(** Running an activation never touches the form. *)
Lemma exec_form (m : Async unit) (q : Question) :
  form (fst (exec m q)) = form q.
Proof.
  revert q; induction m as [a|e|c k IH|p k IH]; intros q; simpl; try reflexivity.
  rewrite IH. destruct c; reflexivity.
Qed.

Lemma handleSubmit_values (onValid : Values -> Async unit) (v : Values)
    (q : Question) :
  values (form (fst (handleSubmit_resolved QuestionSchema onValid v q)))
  = values (form q).
Proof.
  unfold handleSubmit_resolved.
  destruct (isEmptyObject _); [rewrite exec_form|]; reflexivity.
Qed.

Lemma nth_error_snoc {A : Type} (l : list A) (x : A) :
  nth_error (l ++ [x]) (List.length l) = Some x.
Proof. induction l; simpl; auto. Qed.

Lemma remove_nth_snoc {A : Type} (l : list A) (x : A) :
  remove_nth (List.length l) (l ++ [x]) = l.
Proof. induction l; simpl; congruence. Qed.

(** A submit whose resolver settles at once: the resolver sees the values
    of the form, and no trace of the wait is left. *)
Lemma submit_click_atomic (q : Question) :
  stepQ SubmitClick q =
  if submitting q then None
  else Some (fst (handleSubmit_resolved QuestionSchema (onSubmit props pathname)
                    (values (form q)) q)).
Proof.
  cbn [step]. unfold submit_event, resolver_settled, handleSubmit.
  destruct (submitting q); [reflexivity|].
  cbn [validating with_validating].
  rewrite nth_error_snoc, remove_nth_snoc.
  replace (with_validating (validating q)
             (with_validating (validating q ++ [values (form q)]) q))
    with q by (destruct q; reflexivity).
  reflexivity.
Qed.

(** What one event can do to the tags: nothing, append a new tag (Enter
    in the tag input only), or filter one value out. *)
Lemma step_tags (ev : Event) (q q' : Question) :
  stepQ ev q = Some q' ->
  current_tags q' = current_tags q
  \/ (is_add ev = true /\
      exists tag, ~ In tag (current_tags q) /\
                  current_tags q' = current_tags q ++ [tag])
  \/ (exists tag, current_tags q' =
                  filter (fun t => negb (eqb t tag)) (current_tags q)).
Proof.
  destruct ev as [s|s|s|k|tag| |i o| |i];
    try rewrite submit_click_atomic; cbn [step].
  - intros [= <-]. left; reflexivity.
  - intros [= <-]. left; reflexivity.
  - intros [= <-]. left; reflexivity.
  - unfold handleInoutKeyDown.
    cbn [key name tags_field target_value preventDefault value].
    rewrite str_eqb_refl, andb_true_r.
    destruct (eqb k (lit "Enter")) eqn:Hk; [|intros [= <-]; left; reflexivity].
    destruct (negb (eqb (trim (tagInput q)) empty));
      [|intros [= <-]; left; reflexivity].
    destruct (15 <? _)%nat; [intros [= <-]; left; reflexivity|].
    destruct (includes _ _) eqn:Hin; cbn [negb]; intros [= <-].
    + left; reflexivity.
    + right; left. split; [exact Hk|].
      exists (trim (tagInput q)). split; [|reflexivity].
      apply includes_not_In. exact Hin.
  - destruct (includes _ _); [|discriminate].
    intros [= <-]. right; right. exists tag. reflexivity.
  - destruct (submitting q); [discriminate|].
    intros [= <-]. left. unfold current_tags.
    rewrite handleSubmit_values. reflexivity.
  - destruct (nth_error _ _); [|discriminate].
    intros [= <-]. left. unfold current_tags.
    rewrite exec_form. reflexivity.
  - unfold submit_event. destruct (submitting q); [discriminate|].
    intros [= <-]. left. reflexivity.
  - unfold resolver_settled. destruct (nth_error _ _); [|discriminate].
    intros [= <-]. left. unfold current_tags.
    rewrite handleSubmit_values. reflexivity.
Qed.

Lemma run_app (evs1 evs2 : list Event) (q : Question) :
  runQ (evs1 ++ evs2) q =
  match runQ evs1 q with
  | Some q1 => runQ evs2 q1
  | None => None
  end.
Proof.
  revert q; induction evs1 as [|ev evs1 IH]; intros q; simpl; [reflexivity|].
  destruct (stepQ ev q); [apply IH | reflexivity].
Qed.

(** A property of the mounted component that every event preserves holds
    in every reachable state. *)
Lemma Reachable_invariant (P : Question -> Prop) :
  P mount ->
  (forall ev q q', P q -> stepQ ev q = Some q' -> P q') ->
  forall q, ReachableQ q -> P q.
Proof.
  intros H0 Hstep q [evs Hrun].
  revert Hrun H0. generalize mount as q0. revert q.
  induction evs as [|ev evs IH]; intros q q0; simpl.
  - intros [= <-]; auto.
  - destruct (stepQ ev q0) as [q1|] eqn:E; [|discriminate].
    intros Hrun H0. eapply IH; eauto.
Qed.

Lemma filter_keeps_NoDup (tag : jsstring) (l : list jsstring) :
  NoDup l -> NoDup (filter (fun t => negb (eqb t tag)) l).
Proof. apply NoDup_filter. Qed.

Lemma NoDup_snoc (l : list jsstring) (x : jsstring) :
  NoDup l -> ~ In x l -> NoDup (l ++ [x]).
Proof.
  intros Hl Hx. apply NoDup_app; [assumption | repeat constructor; intros [] |].
  intros a Ha [<-|[]]. contradiction.
Qed.

Lemma tags_NoDup (q : Question) : ReachableQ q -> NoDup (current_tags q).
Proof.
  apply Reachable_invariant with (P := fun q => NoDup (current_tags q)).
  - constructor.
  - intros ev q0 q' Hq Hs.
    destruct (step_tags _ _ _ Hs) as [-> | [(_ & tag & Hn & ->) | (tag & ->)]].
    + assumption.
    + apply NoDup_snoc; assumption.
    + apply filter_keeps_NoDup; assumption.
Qed.

(** C4: adding a tag that is already among the current tags leaves them as
    they are, and so the tags of a reachable state hold no string twice. *)
Theorem add_existing_tag_unchanged :
  (forall (q : Question) (raw : jsstring),
      In (trim raw) (current_tags q) ->
      exists q',
        runQ (add_tag raw) q = Some q' /\ current_tags q' = current_tags q)
  /\ (forall q : Question, ReachableQ q -> NoDup (current_tags q)).
Proof.
  split; [|exact tags_NoDup].
  intros q raw Hin.
  rewrite add_tag_cases. cbv zeta.
  eexists. split; [reflexivity|].
  destruct (eqb (trim raw) empty); [reflexivity|].
  destruct (15 <? _)%nat; [reflexivity|].
  apply includes_In in Hin. rewrite Hin. reflexivity.
Qed.

(** Filtering out a value that occurs once removes that one occurrence. *)
Lemma filter_out_single (t : jsstring) (l : list jsstring) :
  count_occ jsstring_eq_dec l t = 1 ->
  exists l1 l2,
    l = l1 ++ t :: l2 /\
    filter (fun x => negb (eqb x t)) l = l1 ++ l2 /\
    ~ In t (l1 ++ l2).
Proof.
  induction l as [|x l IH]; simpl; [discriminate|].
  destruct (jsstring_eq_dec x t) as [->|Hx].
  - intros [= H0]. rewrite str_eqb_refl. cbn [negb].
    apply count_occ_not_In in H0.
    exists [], l. repeat split.
    + simpl. rewrite forallb_filter_id; [reflexivity|].
      apply forallb_forall. intros y Hy.
      apply negb_true_iff, str_eqb_neq. intros ->. contradiction.
    + exact H0.
  - intros H1. destruct (IH H1) as (l1 & l2 & -> & Hf & Hn).
    apply str_eqb_neq in Hx as Hx'. rewrite Hx'. cbn [negb].
    exists (x :: l1), l2. repeat split.
    + rewrite Hf. reflexivity.
    + simpl. intros [E|E]; [apply Hx; exact E | contradiction].
Qed.

(** C5: removing a tag that occurs exactly once among n tags leaves n-1
    tags, without it, the others in their former order. *)
Theorem remove_tag_once (q : Question) (t : jsstring) :
  count_occ jsstring_eq_dec (current_tags q) t = 1 ->
  exists q',
    runQ (remove_tag t) q = Some q' /\
    List.length (current_tags q') = List.length (current_tags q) - 1 /\
    ~ In t (current_tags q') /\
    exists l1 l2,
      current_tags q = l1 ++ t :: l2 /\ current_tags q' = l1 ++ l2.
Proof.
  intros Hc.
  assert (Hin : In t (current_tags q)).
  { apply (count_occ_In jsstring_eq_dec). lia. }
  destruct (filter_out_single _ _ Hc) as (l1 & l2 & El & Ef & Hn).
  unfold remove_tag. cbn [run step]. fold (current_tags q).
  apply includes_In in Hin. rewrite Hin.
  eexists. split; [reflexivity|].
  unfold current_tags at 1 3 4. cbn. fold (current_tags q).
  rewrite Ef. repeat split.
  - rewrite El, !length_app. simpl. lia.
  - exact Hn.
  - exists l1, l2. split; [exact El | reflexivity].
Qed.

Lemma run_tag_count (evs : list Event) (q0 q : Question) :
  runQ evs q0 = Some q ->
  List.length (current_tags q) <= List.length (current_tags q0) + adds evs.
Proof.
  revert q0; induction evs as [|ev evs IH]; intros q0; simpl.
  - intros [= <-]. unfold adds; simpl. lia.
  - destruct (stepQ ev q0) as [q1|] eqn:Hs; [|discriminate].
    intros Hrun. apply IH in Hrun.
    unfold adds in *. simpl.
    destruct (step_tags _ _ _ Hs) as [E | [(Ha & tag & _ & E) | (tag & E)]].
    + rewrite E in Hrun. destruct (is_add ev); simpl; lia.
    + rewrite E, length_app in Hrun. rewrite Ha. simpl in *. lia.
    + pose proof (filter_length_le (fun t => negb (eqb t tag)) (current_tags q0)).
      rewrite E in Hrun. destruct (is_add ev); simpl; lia.
Qed.

(** C1, as the code has it: the add path has no cap; the number of tags of
    a reachable state is bounded by the number of Add tag operations that
    led to it. *)
Theorem tag_count_bounded_by_adds (evs : list Event) (q : Question) :
  runQ evs mount = Some q ->
  0 <= List.length (current_tags q) <= adds evs.
Proof.
  intros Hrun. apply run_tag_count in Hrun. simpl in Hrun. lia.
Qed.

End TagEditor.

(** ** The submit life cycle *)
Section Submit.

Variable QuestionSchema : Values -> Errors.
Variable props : Props.
Variable pathname : jsstring.

Local Abbreviation stepQ := (step QuestionSchema props pathname).
Local Abbreviation runQ := (run QuestionSchema props pathname).
Local Abbreviation ReachableQ := (Reachable QuestionSchema props pathname).
Local Abbreviation onSubmitQ := (onSubmit props pathname).
Local Abbreviation payloadQ := (payload pathname).

Lemma onSubmit_unparsed (vals : Values) (e : Thrown) :
  JSON_parse (mongoUserId props) = inr e ->
  onSubmitQ vals =
  Do (SetSubmitting true) (Do (ConsoleLog e) (Do (SetSubmitting false) (Ret tt))).
Proof. unfold onSubmit. intros ->. reflexivity. Qed.

Lemma onSubmit_parsed (vals : Values) (author : JSValue) :
  JSON_parse (mongoUserId props) = inl author ->
  exists k,
    onSubmitQ vals = Do (SetSubmitting true) (Await (payloadQ vals author) k) /\
    resumes_onSubmit k.
Proof.
  unfold onSubmit. intros ->. cbn.
  eexists. split; [reflexivity|].
  intros [|e] q; reflexivity.
Qed.

Lemma calls_app (t1 t2 : list Effect) : calls (t1 ++ t2) = calls t1 ++ calls t2.
Proof. apply flat_map_app. Qed.

Lemma pushes_app (t1 t2 : list Effect) : pushes (t1 ++ t2) = pushes t1 ++ pushes t2.
Proof. apply flat_map_app. Qed.

(** The start of a submit of valid values when the author id parses. *)
Lemma submit_click_valid (q : Question) (author : JSValue) :
  submitting q = false ->
  isEmptyObject (QuestionSchema (values (form q))) = true ->
  JSON_parse (mongoUserId props) = inl author ->
  exists k,
    resumes_onSubmit k /\
    stepQ SubmitClick q =
    Some {| form := {| values := values (form q);
                       errors := QuestionSchema (values (form q)) |};
            tagInput := tagInput q;
            submitting := true;
            outstanding := outstanding q ++ [k];
            trace := trace q ++ [Called (payloadQ (values (form q)) author)];
            validating := validating q |}.
Proof.
  intros Hs Hv Hp. rewrite submit_click_atomic, Hs.
  unfold handleSubmit_resolved. rewrite Hv.
  destruct (onSubmit_parsed (values (form q)) _ Hp) as (k & -> & Hk).
  exists k. split; [exact Hk | reflexivity].
Qed.

(** C6, as the code has it: when the draft passes the schema and the author
    id is a JSON text, Submit makes exactly one persistence call, with the
    draft's title, explanation (as content) and tags, the parsed author and
    the current route; when that call resolves the component navigates to
    the home route, and whichever way it settles no further call is made. *)
Theorem submit_valid_draft (q : Question) (author : JSValue) :
  submitting q = false ->
  isEmptyObject (QuestionSchema (values (form q))) = true ->
  JSON_parse (mongoUserId props) = inl author ->
  let p := {| p_title := title (values (form q));
              p_content := explanation (values (form q));
              p_tags := tags (values (form q));
              p_author := author;
              p_path := pathname |} in
  let n := List.length (outstanding q) in
  exists q1,
    stepQ SubmitClick q = Some q1 /\
    submitting q1 = true /\
    trace q1 = trace q ++ [Called p] /\
    (exists q2,
        stepQ (Settled n Resolved) q1 = Some q2 /\
        trace q2 = trace q ++ [Called p; Pushed (lit "/")] /\
        calls (trace q2) = calls (trace q) ++ [p]) /\
    (forall e, exists q2,
        stepQ (Settled n (Rejected e)) q1 = Some q2 /\
        trace q2 = trace q ++ [Called p; Logged e] /\
        calls (trace q2) = calls (trace q) ++ [p]).
Proof.
  intros Hs Hv Hp p n.
  destruct (submit_click_valid q author Hs Hv Hp) as (k & Hk & Hstep).
  eexists. split; [exact Hstep|].
  split; [reflexivity|]. split; [reflexivity|].
  assert (Hsettle : forall o, exists q2,
             stepQ (Settled n o)
               {| form := {| values := values (form q);
                             errors := QuestionSchema (values (form q)) |};
                  tagInput := tagInput q; submitting := true;
                  outstanding := outstanding q ++ [k];
                  trace := trace q ++ [Called p];
                  validating := validating q |} = Some q2 /\
             trace q2 = (trace q ++ [Called p]) ++
                        [match o with
                         | Resolved => Pushed (lit "/")
                         | Rejected e => Logged e
                         end]).
  { intros o. cbn [step outstanding]. subst n.
    rewrite nth_error_snoc, remove_nth_snoc, Hk.
    eexists. split; reflexivity. }
  split.
  - destruct (Hsettle Resolved) as (q2 & E & Ht).
    exists q2. split; [exact E|].
    rewrite Ht, <- app_assoc. split; [reflexivity|].
    rewrite calls_app. simpl. reflexivity.
  - intros e. destruct (Hsettle (Rejected e)) as (q2 & E & Ht).
    exists q2. split; [exact E|].
    rewrite Ht, <- app_assoc. split; [reflexivity|].
    rewrite calls_app. simpl. reflexivity.
Qed.

(** C7: an activation of [onSubmit] either ends at once with the flag
    cleared (the author id did not parse), or is suspended at the
    persistence call; whenever and however that call settles, the
    activation completes without an uncaught error and with the flag
    cleared, and a rejection is logged. *)
Theorem rejection_logged_flag_cleared (q : Question) (vals : Values) :
  (exists q1,
      exec (onSubmitQ vals) q = (q1, Completed) /\
      submitting q1 = false /\
      outstanding q1 = outstanding q)
  \/
  (exists q1 k,
      exec (onSubmitQ vals) q = (q1, Suspended) /\
      outstanding q1 = outstanding q ++ [k] /\
      forall (o : Outcome) (q' : Question),
      exists q2,
        exec (k o) q' = (q2, Completed) /\
        submitting q2 = false /\
        match o with
        | Rejected e => trace q2 = trace q' ++ [Logged e]
        | Resolved => trace q2 = trace q' ++ [Pushed (lit "/")]
        end).
Proof.
  destruct (JSON_parse (mongoUserId props)) as [author|e] eqn:Hp.
  - right. destruct (onSubmit_parsed vals _ Hp) as (k & -> & Hk).
    eexists. exists k. split; [reflexivity|]. split; [reflexivity|].
    intros o q'. rewrite Hk. eexists. split; [reflexivity|].
    split; [reflexivity|]. destruct o; reflexivity.
  - left. rewrite (onSubmit_unparsed vals _ Hp).
    eexists. split; [reflexivity|]. split; reflexivity.
Qed.

(** C10: when the persistence call of a submit is rejected, no navigation
    happens and title, explanation and tags stay as they were; the flag is
    cleared, so the same draft can be submitted again, with the same
    payload. *)
Theorem rejected_submit_keeps_draft (q : Question) (author : JSValue) (e : Thrown) :
  submitting q = false ->
  isEmptyObject (QuestionSchema (values (form q))) = true ->
  JSON_parse (mongoUserId props) = inl author ->
  exists q1 q2 q3,
    stepQ SubmitClick q = Some q1 /\
    stepQ (Settled (List.length (outstanding q)) (Rejected e)) q1 = Some q2 /\
    pushes (trace q2) = pushes (trace q) /\
    values (form q2) = values (form q) /\
    submitting q2 = false /\
    stepQ SubmitClick q2 = Some q3 /\
    calls (trace q3) =
      calls (trace q) ++ [payloadQ (values (form q)) author;
                          payloadQ (values (form q)) author].
Proof.
  intros Hs Hv Hp.
  destruct (submit_click_valid q author Hs Hv Hp) as (k & Hk & Hstep).
  match type of Hstep with _ = Some ?x => set (q1 := x) in * end.
  assert (Hsettle :
            stepQ (Settled (List.length (outstanding q)) (Rejected e)) q1 =
            Some (after_await (Rejected e)
                    (with_outstanding (outstanding q) q1))).
  { cbn [step]. unfold q1 at 1 2. cbn [outstanding].
    rewrite nth_error_snoc, remove_nth_snoc, Hk. reflexivity. }
  match type of Hsettle with _ = Some ?x => set (q2 := x) in * end.
  destruct (submit_click_valid q2 author)
    as (k' & _ & Hstep'); [reflexivity | exact Hv | exact Hp |].
  exists q1, q2. eexists.
  split; [exact Hstep|]. split; [exact Hsettle|].
  split; [|split; [|split; [|split]]].
  - cbn. rewrite !pushes_app. simpl. rewrite !app_nil_r. reflexivity.
  - reflexivity.
  - reflexivity.
  - exact Hstep'.
  - cbn. rewrite !calls_app. simpl. rewrite <- !app_assoc. reflexivity.
Qed.

Lemma step_resuming (ev : Event) (q q' : Question) :
  resuming_invariant q -> stepQ ev q = Some q' -> resuming_invariant q'.
Proof.
  unfold resuming_invariant. intros Hk.
  assert (Hres : forall (v : Values) (q0 : Question),
             Forall resumes_onSubmit (outstanding q0) ->
             Forall resumes_onSubmit
               (outstanding (fst (handleSubmit_resolved QuestionSchema
                                    (onSubmit props pathname) v q0)))).
  { intros v q0 H0. unfold handleSubmit_resolved.
    destruct (isEmptyObject _); [|exact H0].
    destruct (JSON_parse (mongoUserId props)) as [author|e] eqn:Hp.
    - destruct (onSubmit_parsed v _ Hp) as (k & -> & Hr).
      cbn. apply Forall_app. split; [exact H0 | repeat constructor; exact Hr].
    - rewrite (onSubmit_unparsed _ _ Hp). exact H0. }
  destruct ev as [s|s|s|k|tag| |i o| |i];
    try rewrite submit_click_atomic; cbn [step].
  - intros [= <-]. assumption.
  - intros [= <-]. assumption.
  - intros [= <-]. assumption.
  - destruct (handleInoutKeyDown _ _ _ _) as [f e'].
    intros [= <-]. assumption.
  - destruct (includes _ _); [|discriminate].
    intros [= <-]. assumption.
  - destruct (submitting q); [discriminate|].
    intros [= <-]. apply Hres. assumption.
  - destruct (nth_error (outstanding q) i) as [k|] eqn:Hi; [|discriminate].
    intros [= <-].
    assert (Hr : resumes_onSubmit k).
    { rewrite Forall_forall in Hk. apply Hk. eapply nth_error_In; eauto. }
    rewrite Hr. cbn.
    clear Hi Hr. revert i. induction Hk as [|x l Hx Hl IH]; intros [|i]; simpl;
      try constructor; auto.
  - unfold submit_event. destruct (submitting q); [discriminate|].
    intros [= <-]. assumption.
  - unfold resolver_settled. destruct (nth_error _ _) as [v|]; [|discriminate].
    intros [= <-]. apply Hres. assumption.
Qed.

Lemma reachable_resuming (q : Question) : ReachableQ q -> resuming_invariant q.
Proof.
  apply Reachable_invariant.
  - constructor.
  - intros ev q0 q'. apply step_resuming.
Qed.

Lemma step_in_flight_invariant (ev : Event) (q q' : Question) :
  one_at_a_time ev ->
  in_flight_invariant q -> stepQ ev q = Some q' -> in_flight_invariant q'.
Proof.
  intros Hev (Hk & Hn & Hv).
  destruct ev as [s|s|s|k|tag| |i o| |i];
    try rewrite submit_click_atomic; cbn [step]; try contradiction.
  - intros [= <-]. repeat split; assumption.
  - intros [= <-]. repeat split; assumption.
  - intros [= <-]. repeat split; assumption.
  - destruct (handleInoutKeyDown _ _ _ _) as [f e'].
    intros [= <-]. repeat split; assumption.
  - destruct (includes _ _); [|discriminate].
    intros [= <-]. repeat split; assumption.
  - destruct (submitting q) eqn:Hs; [discriminate|].
    intros [= <-]. unfold handleSubmit_resolved.
    destruct (isEmptyObject _).
    + destruct (JSON_parse (mongoUserId props)) as [author|e] eqn:Hp.
      * destruct (onSubmit_parsed (values (form q)) _ Hp) as (k & -> & Hres).
        repeat split; cbn.
        -- apply Forall_app. split; [assumption | repeat constructor; assumption].
        -- rewrite length_app, Hn. reflexivity.
        -- assumption.
      * rewrite (onSubmit_unparsed _ _ Hp). repeat split; cbn; assumption.
    + unfold in_flight_invariant. cbn. rewrite Hs. repeat split; assumption.
  - destruct (nth_error (outstanding q) i) as [k|] eqn:Hi; [|discriminate].
    intros [= <-].
    assert (Hres : resumes_onSubmit k).
    { rewrite Forall_forall in Hk. apply Hk. eapply nth_error_In; eauto. }
    rewrite Hres.
    assert (Hlen : i < List.length (outstanding q)).
    { apply nth_error_Some. congruence. }
    destruct (submitting q); [|lia].
    destruct (outstanding q) as [|k0 [|k1 r]]; simpl in Hn; try lia.
    assert (i = 0) by (simpl in Hlen; lia). subst i.
    repeat split; cbn; [constructor | assumption].
Qed.

Lemma one_at_a_time_in_flight (evs : list Event) (q : Question) :
  Forall one_at_a_time evs -> runQ evs mount = Some q -> in_flight_invariant q.
Proof.
  assert (H0 : in_flight_invariant mount)
    by (split; [constructor | split; reflexivity]).
  revert H0. generalize mount as q0. revert q.
  induction evs as [|ev evs IH]; intros q q0 H0 Hall; cbn [run].
  - intros [= <-]. exact H0.
  - apply Forall_cons_iff in Hall. destruct Hall as [Hev Hall].
    destruct (stepQ ev q0) as [q1|] eqn:Hs; [|discriminate].
    apply IH; [|exact Hall].
    exact (step_in_flight_invariant ev q0 q1 Hev H0 Hs).
Qed.

(** What the disabled control does achieve: as long as no submit event
    comes while an earlier submit awaits its resolver, at most one
    persistence call is outstanding, there is one exactly when [submitting]
    is set, and then no submit is offered. *)
Lemma exclusive_when_one_at_a_time (evs : list Event) (q : Question) :
  Forall one_at_a_time evs ->
  runQ evs mount = Some q ->
  List.length (outstanding q) <= 1 /\
  (submitting q = true <-> List.length (outstanding q) = 1) /\
  (submitting q = true -> stepQ SubmitClick q = None /\ stepQ Submit q = None).
Proof.
  intros Hall Hrun.
  destruct (one_at_a_time_in_flight evs q Hall Hrun) as (Hk & Hn & _).
  split; [destruct (submitting q); lia|].
  split; [destruct (submitting q); split; intros; try lia; congruence|].
  intros Hs. rewrite submit_click_atomic. cbn [step]. unfold submit_event.
  rewrite Hs. split; reflexivity.
Qed.

End Submit.

(** C8: the claim fails on the code.  [onSubmit] raises [submitting] only
    after [form.handleSubmit] has awaited the resolver, and never tests it:
    of two submit events that both come before the first resolver has
    settled, the second is accepted, its persistence call is made while
    [submitting] is set, with the same payload, and two calls are
    outstanding; when one of them settles the flag is cleared with the
    other still outstanding. *)
Theorem second_submit_makes_second_call :
  exists q1 q2 q3 p,
    run QuestionSchema_spec ask_props ask_path
      (write_draft ++ [Submit; Submit; Validated 0]) mount = Some q1 /\
    submitting q1 = true /\
    calls (trace q1) = [p] /\
    List.length (outstanding q1) = 1 /\
    step QuestionSchema_spec ask_props ask_path (Validated 0) q1 = Some q2 /\
    submitting q2 = true /\
    calls (trace q2) = [p; p] /\
    List.length (outstanding q2) = 2 /\
    step QuestionSchema_spec ask_props ask_path (Settled 0 Resolved) q2 = Some q3 /\
    submitting q3 = false /\
    List.length (outstanding q3) = 1.
Proof.
  eexists. eexists. eexists. eexists.
  split; [vm_compute; reflexivity|].
  split; [reflexivity|]. split; [reflexivity|]. split; [reflexivity|].
  split; [vm_compute; reflexivity|].
  split; [reflexivity|]. split; [reflexivity|]. split; [reflexivity|].
  split; [vm_compute; reflexivity|].
  split; reflexivity.
Qed.

(** ** The theme state holder *)
Section ThemeLoop.

Import Theme.

Lemma includes_classList_add (token : jsstring) (cl : list jsstring) :
  includes (classList_add token cl) token = true.
Proof.
  unfold classList_add. destruct (includes cl token) eqn:E; [exact E|].
  apply includes_In, in_or_app. right. left. reflexivity.
Qed.

Lemma includes_classList_remove (token : jsstring) (cl : list jsstring) :
  includes (classList_remove token cl) token = false.
Proof.
  apply includes_not_In. unfold classList_remove.
  intros H. apply filter_In in H. destruct H as [_ H].
  rewrite str_eqb_refl in H. discriminate.
Qed.

(** The state after [n] runs of the effect. *)
Lemma commits_state (cl : list jsstring) (n : nat) :
  exists t,
    commits n (first_render cl) = Some t /\
    mode t = (if Nat.even n then lit "light" else lit "dark") /\
    deps t = match n with
             | O => None
             | S k => Some (if Nat.even k then lit "light" else lit "dark")
             end /\
    match n with
    | O => classList t = cl
    | S _ => includes (classList t) (lit "dark") = Nat.odd n
    end.
Proof.
  induction n as [|n (t & Hc & Hm & Hd & Hcl)].
  - exists (first_render cl). repeat split.
  - cbn [commits]. rewrite Hc. unfold commit. rewrite Hm, Hd.
    assert (Hdeps : same_deps
                      match n with
                      | O => None
                      | S k => Some (if Nat.even k then lit "light" else lit "dark")
                      end
                      (if Nat.even n then lit "light" else lit "dark") = false).
    { destruct n as [|k]; [reflexivity|]. cbn [same_deps].
      rewrite Nat.even_succ, <- Nat.negb_even.
      destruct (Nat.even k); reflexivity. }
    rewrite Hdeps. unfold effect.
    rewrite Nat.odd_succ, Nat.even_succ, <- Nat.negb_even.
    destruct (Nat.even n); cbn [eqb negb lit]; eexists;
      (split; [reflexivity|]); cbn [mode deps classList];
      repeat split.
    + apply includes_classList_add.
    + apply includes_classList_remove.
Qed.

(** C9: starting from the first render, the effect is due after every
    render and each run negates the mode: after [n] runs the mode is light
    for even [n] and dark for odd [n], the document carries the dark class
    exactly after an odd number of runs, and a further run always
    follows. *)
Theorem mode_flips_forever (cl : list jsstring) (n : nat) :
  exists t t',
    commits n (first_render cl) = Some t /\
    mode t = (if Nat.even n then lit "light" else lit "dark") /\
    match n with
    | O => classList t = cl
    | S _ => includes (classList t) (lit "dark") = Nat.odd n
    end /\
    commit t = Some t' /\
    mode t' = (if eqb (mode t) (lit "light") then lit "dark" else lit "light") /\
    eqb (mode t') (mode t) = false /\
    includes (classList t') (lit "dark") = eqb (mode t') (lit "dark").
Proof.
  destruct (commits_state cl n) as (t & Hc & Hm & _ & Hcl).
  destruct (commits_state cl (S n)) as (t' & Hc' & Hm' & _ & Hcl').
  cbn [commits] in Hc'. rewrite Hc in Hc'.
  exists t, t'. repeat split; try assumption.
  - rewrite Hm, Hm', Nat.even_succ, <- Nat.negb_even.
    destruct (Nat.even n); reflexivity.
  - rewrite Hm, Hm', Nat.even_succ, <- Nat.negb_even.
    destruct (Nat.even n); reflexivity.
  - rewrite Hcl', Hm', Nat.odd_succ, Nat.even_succ, <- Nat.negb_even.
    destruct (Nat.even n); reflexivity.
Qed.

End ThemeLoop.

(** ** Scenarios on the ask-question page *)

Lemma add_tag_appends_witness :
  trim (lit " css ") <> [] /\
  List.length (trim (lit " css ")) <= 15 /\
  ~ In (trim (lit " css ")) (current_tags mount) /\
  exists q',
    run QuestionSchema_spec ask_props ask_path (add_tag (lit " css ")) mount = Some q' /\
    current_tags q' = [lit "css"] /\
    tagInput q' = empty /\
    tags_error (errors (form q')) = None.
Proof.
  assert (H1 : trim (lit " css ") <> []) by (vm_compute; discriminate).
  assert (H2 : List.length (trim (lit " css ")) <= 15) by (vm_compute; lia).
  assert (H3 : ~ In (trim (lit " css ")) (current_tags mount)) by (simpl; tauto).
  repeat split; try assumption.
  destruct (add_tag_appends QuestionSchema_spec ask_props ask_path mount (lit " css ") H1 H2 H3)
    as (q' & Hrun & Htags & _ & _ & Hin & Herr).
  exists q'. repeat split; assumption.
Defined.

Lemma add_long_tag_rejected_witness :
  15 < List.length (trim (lit "server-side-rendering")) /\
  exists q',
    run QuestionSchema_spec ask_props ask_path
      (add_tag (lit "server-side-rendering")) (state_after ask_props write_draft)
      = Some q' /\
    current_tags q' = [lit "css"] /\
    tags_error (errors (form q')) = Some tag_too_long.
Proof.
  assert (H : 15 < List.length (trim (lit "server-side-rendering")))
    by (vm_compute; lia).
  split; [exact H|].
  exact (add_long_tag_rejected QuestionSchema_spec ask_props ask_path
           (state_after ask_props write_draft) (lit "server-side-rendering") H).
Defined.

Lemma add_existing_tag_unchanged_witness :
  In (trim (lit "css")) (current_tags (state_after ask_props write_draft)) /\
  Reachable QuestionSchema_spec ask_props ask_path (state_after ask_props write_draft) /\
  (exists q',
      run QuestionSchema_spec ask_props ask_path (add_tag (lit "css"))
        (state_after ask_props write_draft) = Some q' /\
      current_tags q' = [lit "css"]) /\
  NoDup [lit "css"].
Proof.
  assert (H1 : In (trim (lit "css")) (current_tags (state_after ask_props write_draft)))
    by (left; reflexivity).
  assert (H2 : Reachable QuestionSchema_spec ask_props ask_path
                 (state_after ask_props write_draft))
    by (exists write_draft; reflexivity).
  destruct (add_existing_tag_unchanged QuestionSchema_spec ask_props ask_path)
    as [Hsame Hnodup].
  repeat split; try assumption.
  - exact (Hsame (state_after ask_props write_draft) (lit "css") H1).
  - exact (Hnodup (state_after ask_props write_draft) H2).
Defined.

Lemma remove_tag_once_witness :
  count_occ jsstring_eq_dec
    (current_tags (state_after ask_props
                     (write_draft ++ add_tag (lit "html") ++ add_tag (lit "js"))))
    (lit "html") = 1 /\
  exists q',
    run QuestionSchema_spec ask_props ask_path (remove_tag (lit "html"))
      (state_after ask_props
         (write_draft ++ add_tag (lit "html") ++ add_tag (lit "js"))) = Some q' /\
    List.length (current_tags q') = 2 /\
    ~ In (lit "html") (current_tags q').
Proof.
  assert (H : count_occ jsstring_eq_dec
                (current_tags (state_after ask_props
                   (write_draft ++ add_tag (lit "html") ++ add_tag (lit "js"))))
                (lit "html") = 1) by (vm_compute; reflexivity).
  split; [exact H|].
  destruct (remove_tag_once QuestionSchema_spec ask_props ask_path _ _ H)
    as (q' & Hrun & Hlen & Hout & _).
  exists q'. repeat split; assumption.
Defined.

Lemma tag_count_bounded_by_adds_witness :
  run QuestionSchema_spec ask_props ask_path write_draft mount
    = Some (state_after ask_props write_draft) /\
  0 <= List.length (current_tags (state_after ask_props write_draft))
    <= adds write_draft.
Proof.
  assert (H : run QuestionSchema_spec ask_props ask_path write_draft mount
              = Some (state_after ask_props write_draft)) by reflexivity.
  split; [exact H|].
  exact (tag_count_bounded_by_adds QuestionSchema_spec ask_props ask_path
           write_draft (state_after ask_props write_draft) H).
Defined.

(** Four Add tag operations with four different tags leave four tags:
    the add path has no cap at 3. *)
Lemma four_tags_reachable :
  exists q,
    run QuestionSchema_spec ask_props ask_path
      (add_tag (lit "css") ++ add_tag (lit "html") ++
       add_tag (lit "react") ++ add_tag (lit "nextjs")) mount = Some q /\
    current_tags q = [lit "css"; lit "html"; lit "react"; lit "nextjs"] /\
    ~ (0 <= List.length (current_tags q) <= 3).
Proof.
  eexists. split; [reflexivity|]. split; [reflexivity|].
  simpl. lia.
Qed.

Lemma submit_valid_draft_witness :
  submitting (state_after ask_props write_draft) = false /\
  isEmptyObject (QuestionSchema_spec
                   (values (form (state_after ask_props write_draft)))) = true /\
  JSON_parse (mongoUserId ask_props) = inl (JString (lit "507f1f77bcf86cd799439011")) /\
  exists q1 q2,
    step QuestionSchema_spec ask_props ask_path SubmitClick
      (state_after ask_props write_draft) = Some q1 /\
    step QuestionSchema_spec ask_props ask_path (Settled 0 Resolved) q1 = Some q2 /\
    trace q2 =
      [Called {| p_title := lit "How to center a div in CSS?";
                 p_content := lit "<p>I tried margin auto and flexbox.</p>";
                 p_tags := [lit "css"];
                 p_author := JString (lit "507f1f77bcf86cd799439011");
                 p_path := lit "/ask-question" |};
       Pushed (lit "/")].
Proof.
  assert (H1 : submitting (state_after ask_props write_draft) = false)
    by reflexivity.
  assert (H2 : isEmptyObject
                 (QuestionSchema_spec
                    (values (form (state_after ask_props write_draft)))) = true)
    by reflexivity.
  assert (H3 : JSON_parse (mongoUserId ask_props)
               = inl (JString (lit "507f1f77bcf86cd799439011")))
    by (vm_compute; reflexivity).
  repeat split; try assumption.
  destruct (submit_valid_draft QuestionSchema_spec ask_props ask_path
              (state_after ask_props write_draft)
              (JString (lit "507f1f77bcf86cd799439011")) H1 H2 H3)
    as (q1 & Hclick & _ & _ & (q2 & Hsettle & Htrace & _) & _).
  exists q1, q2. repeat split; assumption.
Defined.

(** A draft that passes the schema, on a page that hands the author id over
    as it is: [JSON.parse] throws inside the [try], the error is logged and
    Submit ends without any persistence call. *)
Lemma submit_unparsed_author_no_call :
  isEmptyObject (QuestionSchema_spec
                   (values (form (state_after raw_id_props write_draft)))) = true /\
  JSON_parse (mongoUserId raw_id_props) = inr SyntaxError /\
  exists q1,
    step QuestionSchema_spec raw_id_props ask_path SubmitClick
      (state_after raw_id_props write_draft) = Some q1 /\
    trace q1 = [Logged SyntaxError] /\
    calls (trace q1) = [] /\
    outstanding q1 = [] /\
    submitting q1 = false.
Proof.
  split; [reflexivity|]. split; [vm_compute; reflexivity|].
  eexists. split; [vm_compute; reflexivity|].
  repeat split.
Qed.

Lemma rejected_submit_keeps_draft_witness :
  submitting (state_after ask_props write_draft) = false /\
  isEmptyObject (QuestionSchema_spec
                   (values (form (state_after ask_props write_draft)))) = true /\
  JSON_parse (mongoUserId ask_props) = inl (JString (lit "507f1f77bcf86cd799439011")) /\
  exists q1 q2,
    step QuestionSchema_spec ask_props ask_path SubmitClick
      (state_after ask_props write_draft) = Some q1 /\
    step QuestionSchema_spec ask_props ask_path
      (Settled 0 (Rejected (Reason (lit "Network error")))) q1 = Some q2 /\
    pushes (trace q2) = [] /\
    values (form q2) = values (form (state_after ask_props write_draft)) /\
    submitting q2 = false.
Proof.
  assert (H1 : submitting (state_after ask_props write_draft) = false)
    by reflexivity.
  assert (H2 : isEmptyObject
                 (QuestionSchema_spec
                    (values (form (state_after ask_props write_draft)))) = true)
    by reflexivity.
  assert (H3 : JSON_parse (mongoUserId ask_props)
               = inl (JString (lit "507f1f77bcf86cd799439011")))
    by (vm_compute; reflexivity).
  repeat split; try assumption.
  destruct (rejected_submit_keeps_draft QuestionSchema_spec ask_props ask_path
              (state_after ask_props write_draft)
              (JString (lit "507f1f77bcf86cd799439011"))
              (Reason (lit "Network error")) H1 H2 H3)
    as (q1 & q2 & _ & Hclick & Hsettle & Hpush & Hvals & Hflag & _).
  exists q1, q2. repeat split; assumption.
Defined.

(** * Further properties *)

(** ** Trimming *)

Lemma trimStart_clean (s : jsstring) : starts_clean (trimStart s).
Proof.
  induction s as [|c r IH]; simpl; [exact I|].
  destruct (is_white_space c) eqn:E; [exact IH | exact E].
Qed.

Lemma trimStart_id (s : jsstring) : starts_clean s -> trimStart s = s.
Proof. destruct s as [|c r]; simpl; [reflexivity|]. intros ->. reflexivity. Qed.

Lemma trimStart_suffix (s : jsstring) : exists p, s = p ++ trimStart s.
Proof.
  induction s as [|c r (p & IH)]; simpl; [exists []; reflexivity|].
  destruct (is_white_space c).
  - exists (c :: p). simpl. congruence.
  - exists []. reflexivity.
Qed.

Lemma trimEnd_prefix (s : jsstring) : exists x, s = trimEnd s ++ x.
Proof.
  unfold trimEnd. destruct (trimStart_suffix (rev s)) as (p & Hp).
  exists (rev p). rewrite <- rev_app_distr, <- Hp. symmetry. apply rev_involutive.
Qed.

Lemma trimEnd_keeps_clean (s : jsstring) : starts_clean s -> starts_clean (trimEnd s).
Proof.
  destruct (trimEnd_prefix s) as (x & Hx). revert Hx.
  destruct (trimEnd s) as [|c r]; [intros; exact I|].
  intros ->. simpl. auto.
Qed.

Lemma trimEnd_idem (s : jsstring) : trimEnd (trimEnd s) = trimEnd s.
Proof.
  unfold trimEnd. rewrite rev_involutive.
  rewrite (trimStart_id (trimStart (rev s))); [reflexivity|apply trimStart_clean].
Qed.

Lemma trim_idempotent (s : jsstring) : trim (trim s) = trim s.
Proof.
  unfold trim.
  rewrite (trimStart_id (trimEnd (trimStart s))).
  - apply trimEnd_idem.
  - apply trimEnd_keeps_clean, trimStart_clean.
Qed.

Lemma trim_clean_ends (s : jsstring) :
  starts_clean (trim s) /\ starts_clean (rev (trim s)).
Proof.
  split.
  - apply trimEnd_keeps_clean, trimStart_clean.
  - unfold trim, trimEnd. rewrite rev_involutive. apply trimStart_clean.
Qed.

Section TagEditorMore.

Variable QuestionSchema : Values -> Errors.
Variable props : Props.
Variable pathname : jsstring.

Local Abbreviation stepQ := (step QuestionSchema props pathname).
Local Abbreviation runQ := (run QuestionSchema props pathname).
Local Abbreviation ReachableQ := (Reachable QuestionSchema props pathname).

Lemma trim_well_formed (raw : jsstring) :
  trim raw <> [] -> List.length (trim raw) <= 15 -> well_formed_tag (trim raw).
Proof.
  intros Hne Hlen. destruct (trim_clean_ends raw) as [H1 H2].
  repeat split; try assumption.
  - destruct (trim raw); [congruence | simpl; lia].
  - apply trim_idempotent.
Qed.

Lemma step_tags_well_formed (ev : Event) (q q' : Question) :
  stepQ ev q = Some q' ->
  Forall well_formed_tag (current_tags q) ->
  Forall well_formed_tag (current_tags q').
Proof.
  destruct ev as [s|s|s|k|tag| |i o| |i];
    try rewrite submit_click_atomic; cbn [step].
  - intros [= <-]. auto.
  - intros [= <-]. auto.
  - intros [= <-]. auto.
  - unfold handleInoutKeyDown.
    cbn [key name tags_field target_value preventDefault value].
    destruct (eqb k (lit "Enter") && eqb (lit "tags") (lit "tags"));
      [|intros [= <-]; auto].
    destruct (eqb (trim (tagInput q)) empty) eqn:He; cbn [negb];
      [intros [= <-]; auto|].
    destruct (15 <? _)%nat eqn:Hl; [intros [= <-]; auto|].
    destruct (includes _ _); cbn [negb]; intros [= <-]; [auto|].
    intros Hwf. unfold current_tags. cbn.
    apply Forall_app. split; [exact Hwf|].
    constructor; [|constructor].
    apply trim_well_formed.
    + apply is_empty_string. exact He.
    + apply Nat.ltb_ge. exact Hl.
  - destruct (includes _ _); [|discriminate].
    intros [= <-] Hwf. unfold current_tags. cbn.
    apply Forall_forall. intros x Hx. apply filter_In in Hx.
    rewrite Forall_forall in Hwf. apply Hwf. apply Hx.
  - destruct (submitting q); [discriminate|].
    intros [= <-]. unfold current_tags.
    rewrite handleSubmit_values. auto.
  - destruct (nth_error _ _); [|discriminate].
    intros [= <-]. unfold current_tags.
    rewrite exec_form. auto.
  - unfold submit_event. destruct (submitting q); [discriminate|].
    intros [= <-]. auto.
  - unfold resolver_settled. destruct (nth_error _ _); [|discriminate].
    intros [= <-]. unfold current_tags.
    rewrite handleSubmit_values. auto.
Qed.

Lemma tags_well_formed (q : Question) :
  ReachableQ q -> Forall well_formed_tag (current_tags q).
Proof.
  apply Reachable_invariant
    with (P := fun q => Forall well_formed_tag (current_tags q)).
  - constructor.
  - intros ev q0 q' H Hs. exact (step_tags_well_formed ev q0 q' Hs H).
Qed.

(** X1: in every reachable state each tag has between 1 and 15 code
    units and is already trimmed: no white space at either end. *)
Theorem reachable_tags_well_formed (q : Question) :
  ReachableQ q ->
  Forall (fun t => 1 <= List.length t <= 15 /\ trim t = t /\
                   starts_clean t /\ starts_clean (rev t))
         (current_tags q).
Proof. exact (tags_well_formed q). Qed.

(** X2: Add tag changes the tags exactly when the trimmed input is
    non-empty, at most 15 code units long and not among them; then it is
    appended and the input emptied, otherwise the input stays as typed. *)
Theorem add_tag_changes_iff (q : Question) (raw : jsstring) :
  exists q',
    runQ (add_tag raw) q = Some q' /\
    (current_tags q' <> current_tags q <->
     trim raw <> [] /\ List.length (trim raw) <= 15 /\
     ~ In (trim raw) (current_tags q)) /\
    (current_tags q' <> current_tags q ->
     current_tags q' = current_tags q ++ [trim raw] /\ tagInput q' = empty) /\
    (current_tags q' = current_tags q -> tagInput q' = raw).
Proof.
  rewrite add_tag_cases. cbv zeta. eexists. split; [reflexivity|].
  assert (Hgrow : forall l : list jsstring, l ++ [trim raw] <> l).
  { intros l E. apply (f_equal (@List.length _)) in E.
    rewrite length_app in E. simpl in E. lia. }
  destruct (eqb (trim raw) empty) eqn:He.
  { apply str_eqb_eq in He.
    split; [|split]; [split| |]; cbn; tauto. }
  apply is_empty_string in He.
  destruct (15 <? _)%nat eqn:Hl.
  { apply Nat.ltb_lt in Hl.
    split; [|split]; [split| |]; cbn; try tauto.
    intros (_ & Hle & _). lia. }
  apply Nat.ltb_ge in Hl.
  destruct (includes _ _) eqn:Hin.
  { apply includes_In in Hin.
    split; [|split]; [split| |]; cbn; tauto. }
  apply includes_not_In in Hin.
  unfold current_tags at 1 3 5 7. cbn. fold (current_tags q).
  split; [|split].
  - split; [intros _; auto | intros _; apply Hgrow].
  - intros _. split; reflexivity.
  - intros E. exfalso. exact (Hgrow _ E).
Qed.

(** X3: Enter on an empty or white-space-only input adds nothing and
    leaves the input as typed; the error of the tags field becomes what the
    schema says of the current values, the other errors stay. *)
Theorem add_blank_tag_triggers_validation (q : Question) (raw : jsstring) :
  trim raw = [] ->
  exists q',
    runQ (add_tag raw) q = Some q' /\
    values (form q') = values (form q) /\
    tagInput q' = raw /\
    tags_error (errors (form q')) = tags_error (QuestionSchema (values (form q))) /\
    title_error (errors (form q')) = title_error (errors (form q)) /\
    explanation_error (errors (form q')) = explanation_error (errors (form q)).
Proof.
  intros He. rewrite add_tag_cases. cbv zeta. rewrite He.
  eexists. split; [reflexivity|]. repeat split.
Qed.

(** X4: adding a tag that is already there changes nothing but the typed
    input: the form, a shown tags error included, and the log stay, and the
    input is not emptied. *)
Theorem add_duplicate_tag_is_inert (q : Question) (raw : jsstring) :
  trim raw <> [] ->
  List.length (trim raw) <= 15 ->
  In (trim raw) (current_tags q) ->
  exists q',
    runQ (add_tag raw) q = Some q' /\
    form q' = form q /\
    tagInput q' = raw /\
    trace q' = trace q.
Proof.
  intros Hne Hl Hin. rewrite add_tag_cases. cbv zeta.
  apply is_empty_string in Hne. apply Nat.ltb_ge in Hl.
  apply includes_In in Hin. rewrite Hne, Hl, Hin.
  eexists. split; [reflexivity|]. repeat split.
Qed.

Lemma filter_out_absent (t : jsstring) (l : list jsstring) :
  ~ In t l -> filter (fun x => negb (eqb x t)) l = l.
Proof.
  intros Hn. apply forallb_filter_id, forallb_forall.
  intros x Hx. apply negb_true_iff, str_eqb_neq. intros ->. contradiction.
Qed.

Lemma filter_out_absent_snoc (t : jsstring) (l : list jsstring) :
  ~ In t l -> filter (fun x => negb (eqb x t)) (l ++ [t]) = l.
Proof.
  intros Hn. rewrite filter_app, filter_out_absent by assumption.
  simpl. rewrite str_eqb_refl. apply app_nil_r.
Qed.

(** X5: adding a new tag and then removing it gives back the values the
    form had. *)
Theorem add_then_remove_tag (q : Question) (raw : jsstring) :
  trim raw <> [] ->
  List.length (trim raw) <= 15 ->
  ~ In (trim raw) (current_tags q) ->
  exists q',
    runQ (add_tag raw ++ remove_tag (trim raw)) q = Some q' /\
    values (form q') = values (form q).
Proof.
  intros Hne Hl Hnew. rewrite run_app, add_tag_cases. cbv zeta.
  apply is_empty_string in Hne. apply Nat.ltb_ge in Hl.
  pose proof Hnew as Hnew'. apply includes_not_In in Hnew'.
  rewrite Hne, Hl, Hnew'.
  unfold remove_tag. cbn [run step].
  assert (Hin : includes (current_tags q ++ [trim raw]) (trim raw) = true).
  { apply includes_In, in_or_app. right. left. reflexivity. }
  cbn [with_tagInput with_form form clearErrors_tags set_tags_error
       setValue_tags values tags].
  rewrite Hin. eexists. split; [reflexivity|].
  cbn. rewrite filter_out_absent_snoc by assumption.
  unfold current_tags. destruct (values (form q)); reflexivity.
Qed.

(** X6: [handleTagRemove] takes out every occurrence of the tag and
    nothing else: the result is shorter by the number of occurrences, the
    tag is absent, every other tag keeps its number of occurrences, an
    absent tag leaves the list as it was, and title, explanation and errors
    are not touched. *)
Theorem handleTagRemove_counts (tag : jsstring) (field : Field) (f : Form) :
  let r := tags (values (handleTagRemove tag field f)) in
  List.length r + count_occ jsstring_eq_dec (value field) tag
    = List.length (value field) /\
  ~ In tag r /\
  (forall x, x <> tag ->
     count_occ jsstring_eq_dec r x = count_occ jsstring_eq_dec (value field) x) /\
  (~ In tag (value field) -> r = value field) /\
  title (values (handleTagRemove tag field f)) = title (values f) /\
  explanation (values (handleTagRemove tag field f)) = explanation (values f) /\
  errors (handleTagRemove tag field f) = errors f.
Proof.
  cbn. repeat split.
  - induction (value field) as [|x l IH]; simpl; [reflexivity|].
    destruct (jsstring_eq_dec x tag) as [->|Hx].
    + rewrite str_eqb_refl. simpl. lia.
    + apply str_eqb_neq in Hx. rewrite Hx. simpl. lia.
  - intros H. apply filter_In in H. destruct H as [_ H].
    rewrite str_eqb_refl in H. discriminate.
  - intros x Hx. induction (value field) as [|y l IH]; simpl; [reflexivity|].
    destruct (eqb y tag) eqn:Hy; simpl.
    + apply str_eqb_eq in Hy. subst y.
      destruct (jsstring_eq_dec tag x); [congruence | exact IH].
    + destruct (jsstring_eq_dec y x); [f_equal|]; exact IH.
  - apply filter_out_absent.
Qed.

(** X7: a key-down never changes title, explanation or their errors, nor
    the key; it calls [preventDefault] exactly for Enter on the tags field,
    and any other key or field leaves form and event as they were. *)
Theorem key_down_touches_tags_only (e : KeyboardEvent) (field : Field) (f : Form) :
  let r := handleInoutKeyDown QuestionSchema e field f in
  title (values (fst r)) = title (values f) /\
  explanation (values (fst r)) = explanation (values f) /\
  title_error (errors (fst r)) = title_error (errors f) /\
  explanation_error (errors (fst r)) = explanation_error (errors f) /\
  key (snd r) = key e /\
  defaultPrevented (snd r) =
    (eqb (key e) (lit "Enter") && eqb (name field) (lit "tags"))
    || defaultPrevented e /\
  (eqb (key e) (lit "Enter") && eqb (name field) (lit "tags") = false -> r = (f, e)).
Proof.
  cbv zeta. unfold handleInoutKeyDown.
  destruct (eqb (key e) (lit "Enter") && eqb (name field) (lit "tags")).
  - cbn [preventDefault target_value].
    destruct (negb _); [|repeat split; discriminate].
    destruct (15 <? _)%nat; [repeat split; discriminate|].
    destruct (negb _); repeat split; discriminate.
  - repeat split.
Qed.

End TagEditorMore.

(** ** More on the submit life cycle *)
Section SubmitMore.

Variable QuestionSchema : Values -> Errors.
Variable props : Props.
Variable pathname : jsstring.

Local Abbreviation stepQ := (step QuestionSchema props pathname).
Local Abbreviation runQ := (run QuestionSchema props pathname).
Local Abbreviation ReachableQ := (Reachable QuestionSchema props pathname).
Local Abbreviation onSubmitQ := (onSubmit props pathname).
Local Abbreviation payloadQ := (payload pathname).

Lemma logs_app (t1 t2 : list Effect) : logs (t1 ++ t2) = logs t1 ++ logs t2.
Proof. apply flat_map_app. Qed.

(** X8: what a click on the enabled submit control does: the schema's
    errors replace the form's and the values stay; a valid draft with a
    parsing author id starts one persistence call and sets the flag; a
    valid draft with an author id that does not parse only logs the error;
    an invalid draft adds nothing to the log and leaves the flag; none of
    them navigates. *)
Theorem submit_click_outcomes (q : Question) :
  submitting q = false ->
  exists q',
    stepQ SubmitClick q = Some q' /\
    values (form q') = values (form q) /\
    errors (form q') = QuestionSchema (values (form q)) /\
    pushes (trace q') = pushes (trace q) /\
    match isEmptyObject (QuestionSchema (values (form q))),
          JSON_parse (mongoUserId props) with
    | true, inl author =>
        trace q' = trace q ++ [Called (payloadQ (values (form q)) author)] /\
        submitting q' = true /\
        List.length (outstanding q') = S (List.length (outstanding q))
    | true, inr e =>
        trace q' = trace q ++ [Logged e] /\
        submitting q' = false /\
        outstanding q' = outstanding q
    | false, _ =>
        trace q' = trace q /\
        submitting q' = false /\
        outstanding q' = outstanding q
    end.
Proof.
  intros Hs. rewrite submit_click_atomic, Hs. unfold handleSubmit_resolved.
  destruct (isEmptyObject _) eqn:Hv.
  - destruct (JSON_parse (mongoUserId props)) as [author|e] eqn:Hp.
    + destruct (onSubmit_parsed props pathname (values (form q)) author Hp)
        as (k & -> & _).
      eexists. split; [reflexivity|]. cbn.
      repeat split.
      * rewrite pushes_app. simpl. apply app_nil_r.
      * rewrite length_app. simpl. lia.
    + rewrite (onSubmit_unparsed props pathname _ e Hp).
      eexists. split; [reflexivity|]. cbn.
      repeat split. rewrite pushes_app. simpl. apply app_nil_r.
  - eexists. split; [reflexivity|]. cbn. repeat split; assumption.
Qed.

Lemma exec_tagInput (m : Async unit) (q : Question) :
  tagInput (fst (exec m q)) = tagInput q.
Proof.
  revert q; induction m as [a|e|c k IH|p k IH]; intros q; simpl; try reflexivity.
  rewrite IH. destruct c; reflexivity.
Qed.

(** X11: neither a submit nor the settling of its call changes the
    values of the form or the tag input: the draft is never reset. *)
Theorem submit_never_resets_draft (ev : Event) (q q' : Question) :
  ev = SubmitClick \/ (exists i o, ev = Settled i o) ->
  stepQ ev q = Some q' ->
  values (form q') = values (form q) /\ tagInput q' = tagInput q.
Proof.
  intros [-> | (i & o & ->)]; try rewrite submit_click_atomic; cbn [step].
  - destruct (submitting q); [discriminate|]. intros [= <-].
    split; [apply handleSubmit_values|].
    unfold handleSubmit_resolved. destruct (isEmptyObject _); [|reflexivity].
    rewrite exec_tagInput. reflexivity.
  - destruct (nth_error _ _); [|discriminate]. intros [= <-].
    rewrite exec_form, exec_tagInput. split; reflexivity.
Qed.

Lemma remove_nth_length {A : Type} (i : nat) (l : list A) :
  i < List.length l -> List.length l = S (List.length (remove_nth i l)).
Proof.
  revert i; induction l as [|x l IH]; intros [|i]; simpl; try lia.
  intros H. rewrite <- IH; lia.
Qed.

(** X12: in every reachable state each outstanding call can settle either
    way; that clears the flag, takes this call and no other out of the
    outstanding ones, also when others are still outstanding, and logs the
    navigation or the error; nothing else can settle. *)
Theorem settlement_reenables_submit (q : Question) (i : nat) :
  ReachableQ q ->
  if (i <? List.length (outstanding q))%nat then
    forall o, exists q',
        stepQ (Settled i o) q = Some q' /\
        submitting q' = false /\
        outstanding q' = remove_nth i (outstanding q) /\
        List.length (outstanding q) = S (List.length (outstanding q')) /\
        trace q' = trace q ++ [match o with
                               | Resolved => Pushed (lit "/")
                               | Rejected e => Logged e
                               end]
  else
    forall o, stepQ (Settled i o) q = None.
Proof.
  intros Hq.
  pose proof (reachable_resuming QuestionSchema props pathname q Hq) as Hk.
  unfold resuming_invariant in Hk.
  destruct (i <? List.length (outstanding q))%nat eqn:Hi.
  - apply Nat.ltb_lt in Hi. intros o. cbn [step].
    destruct (nth_error (outstanding q) i) as [k|] eqn:Hn.
    + assert (Hr : resumes_onSubmit k).
      { rewrite Forall_forall in Hk. apply Hk. eapply nth_error_In; eauto. }
      rewrite Hr. eexists. split; [reflexivity|]. cbn.
      repeat split. apply remove_nth_length. exact Hi.
    + apply nth_error_None in Hn. lia.
  - apply Nat.ltb_ge in Hi. intros o. cbn [step].
    apply nth_error_None in Hi. rewrite Hi. reflexivity.
Qed.

Lemma Reachable_step (ev : Event) (q q' : Question) :
  ReachableQ q -> stepQ ev q = Some q' -> ReachableQ q'.
Proof.
  intros [evs Hrun] Hs. exists (evs ++ [ev]).
  rewrite run_app, Hrun. cbn [run]. rewrite Hs. reflexivity.
Qed.

Lemma Reachable_induction (P : Question -> Prop) :
  P mount ->
  (forall ev q q', ReachableQ q -> P q -> stepQ ev q = Some q' -> P q') ->
  forall q, ReachableQ q -> P q.
Proof.
  intros H0 Hstep q Hq.
  apply (Reachable_invariant QuestionSchema props pathname
           (fun q => ReachableQ q /\ P q)); [| |exact Hq].
  - split; [exists []; reflexivity | exact H0].
  - intros ev q0 q1 [Hr Hp] Hs. split.
    + exact (Reachable_step ev q0 q1 Hr Hs).
    + exact (Hstep ev q0 q1 Hr Hp Hs).
Qed.

(** What the settling of a resolver can do to the log and to the
    suspended activations. *)
Lemma resolved_trace (v : Values) (q : Question) :
  let q' := fst (handleSubmit_resolved QuestionSchema onSubmitQ v q) in
  (trace q' = trace q /\ outstanding q' = outstanding q)
  \/ (exists author k,
        isEmptyObject (QuestionSchema v) = true /\
        JSON_parse (mongoUserId props) = inl author /\
        trace q' = trace q ++ [Called (payloadQ v author)] /\
        outstanding q' = outstanding q ++ [k])
  \/ (exists e,
        JSON_parse (mongoUserId props) = inr e /\
        trace q' = trace q ++ [Logged e] /\
        outstanding q' = outstanding q).
Proof.
  cbv zeta. unfold handleSubmit_resolved.
  destruct (isEmptyObject _) eqn:Hv; [|left; split; reflexivity].
  destruct (JSON_parse (mongoUserId props)) as [author|e] eqn:Hp.
  - destruct (onSubmit_parsed props pathname v author Hp) as (k & -> & _).
    right; left. exists author, k. repeat split.
  - rewrite (onSubmit_unparsed props pathname _ e Hp).
    right; right. exists e. repeat split.
Qed.

(** What one event can do to the log and to the suspended activations. *)
Lemma step_trace (ev : Event) (q q' : Question) :
  resuming_invariant q ->
  stepQ ev q = Some q' ->
  (trace q' = trace q /\ outstanding q' = outstanding q)
  \/ (exists author k v,
        (v = values (form q) \/ In v (validating q)) /\
        isEmptyObject (QuestionSchema v) = true /\
        JSON_parse (mongoUserId props) = inl author /\
        trace q' = trace q ++ [Called (payloadQ v author)] /\
        outstanding q' = outstanding q ++ [k])
  \/ (exists e,
        JSON_parse (mongoUserId props) = inr e /\
        trace q' = trace q ++ [Logged e] /\
        outstanding q' = outstanding q)
  \/ (exists o,
        trace q' = trace q ++ [match o with
                               | Resolved => Pushed (lit "/")
                               | Rejected e => Logged e
                               end] /\
        List.length (outstanding q) = S (List.length (outstanding q'))).
Proof.
  unfold resuming_invariant. intros Hk.
  destruct ev as [s|s|s|k|tag| |i o| |i];
    try rewrite submit_click_atomic; cbn [step].
  - intros [= <-]. left. split; reflexivity.
  - intros [= <-]. left. split; reflexivity.
  - intros [= <-]. left. split; reflexivity.
  - destruct (handleInoutKeyDown _ _ _ _) as [f e'].
    intros [= <-]. left. split; reflexivity.
  - destruct (includes _ _); [|discriminate].
    intros [= <-]. left. split; reflexivity.
  - destruct (submitting q); [discriminate|].
    intros [= <-].
    destruct (resolved_trace (values (form q)) q)
      as [H | [(a & k & Hv & Hp & Ht & Ho) | H]].
    + left. exact H.
    + right; left. exists a, k, (values (form q)).
      split; [left; reflexivity|]. repeat split; assumption.
    + right; right; left. exact H.
  - destruct (nth_error (outstanding q) i) as [k|] eqn:Hi; [|discriminate].
    intros [= <-].
    assert (Hres : resumes_onSubmit k).
    { rewrite Forall_forall in Hk. apply Hk. eapply nth_error_In; eauto. }
    rewrite Hres. right; right; right. exists o. split; [reflexivity|].
    cbn. apply remove_nth_length. apply nth_error_Some. congruence.
  - unfold submit_event. destruct (submitting q); [discriminate|].
    intros [= <-]. left. split; reflexivity.
  - unfold resolver_settled.
    destruct (nth_error (validating q) i) as [v|] eqn:Hi; [|discriminate].
    intros [= <-].
    destruct (resolved_trace v (with_validating (remove_nth i (validating q)) q))
      as [H | [(a & k & Hv & Hp & Ht & Ho) | H]].
    + left. exact H.
    + right; left. exists a, k, v.
      split; [right; eapply nth_error_In; eauto|]. repeat split; assumption.
    + right; right; left. exact H.
Qed.

(** X9: in every reachable state each navigation went to the home route
    and navigations plus outstanding calls never exceed the persistence
    calls made; when the author id parses, every call is accounted for: it
    is outstanding, or it ended in a navigation or in a logged error. *)
Theorem navigation_follows_calls (q : Question) :
  ReachableQ q ->
  Forall (fun href => href = lit "/") (pushes (trace q)) /\
  List.length (pushes (trace q)) + List.length (outstanding q)
    <= List.length (calls (trace q)) /\
  (forall author, JSON_parse (mongoUserId props) = inl author ->
     List.length (calls (trace q)) =
     List.length (pushes (trace q)) + List.length (logs (trace q))
     + List.length (outstanding q)).
Proof.
  intros Hq. revert q Hq. apply Reachable_induction.
  - repeat split; [constructor | simpl; lia].
  - intros ev q q' Hr (Hall & Hle & Heq) Hs.
    pose proof (reachable_resuming QuestionSchema props pathname q Hr) as Hinv.
    destruct (step_trace ev q q' Hinv Hs)
      as [(-> & ->) | [(a & k & v & _ & _ & Hp & -> & ->) | [(e & Hp & -> & ->) | (o & -> & Ho)]]].
    + repeat split; assumption.
    + rewrite pushes_app, calls_app, logs_app, !length_app. simpl.
      rewrite app_nil_r. repeat split; [assumption | lia |].
      intros author Ha. specialize (Heq author Ha). lia.
    + rewrite pushes_app, calls_app, logs_app, !length_app. simpl.
      rewrite !app_nil_r. repeat split; [assumption | lia |].
      intros author Ha. congruence.
    + rewrite pushes_app, calls_app, logs_app, !length_app.
      destruct o as [|e]; simpl; rewrite ?app_nil_r, ?length_app; simpl.
      * repeat split.
        -- apply Forall_app. split; [assumption | repeat constructor].
        -- lia.
        -- intros author Ha. specialize (Heq author Ha). lia.
      * repeat split; [assumption | lia |].
        intros author Ha. specialize (Heq author Ha). lia.
Qed.

Lemma exec_validating (m : Async unit) (q : Question) :
  validating (fst (exec m q)) = validating q.
Proof.
  revert q; induction m as [a|e|c k IH|p k IH]; intros q; simpl; try reflexivity.
  rewrite IH. destruct c; reflexivity.
Qed.

Lemma Forall_remove_nth {A : Type} (P : A -> Prop) (i : nat) (l : list A) :
  Forall P l -> Forall P (remove_nth i l).
Proof.
  intros H. revert i. induction H as [|x l Hx Hl IH]; intros [|i]; simpl;
    try constructor; auto.
Qed.

(** The values a submit awaits the resolver for were values of the form:
    their tags are without duplicates and well formed. *)
Lemma validating_tags (q : Question) :
  ReachableQ q ->
  Forall (fun v => NoDup (tags v) /\ Forall well_formed_tag (tags v))
         (validating q).
Proof.
  intros Hq. revert q Hq. apply Reachable_induction.
  - constructor.
  - intros ev q q' Hr Hall Hs.
    assert (Hnow : NoDup (tags (values (form q))) /\
                   Forall well_formed_tag (tags (values (form q)))).
    { split; [exact (tags_NoDup QuestionSchema props pathname q Hr)
             | exact (tags_well_formed QuestionSchema props pathname q Hr)]. }
    assert (Hres : forall i v,
               validating (fst (handleSubmit_resolved QuestionSchema onSubmitQ v
                                  (with_validating (remove_nth i (validating q)) q)))
               = remove_nth i (validating q)).
    { intros i v. unfold handleSubmit_resolved.
      destruct (isEmptyObject _); [rewrite exec_validating|]; reflexivity. }
    revert Hs.
    destruct ev as [s|s|s|k|tag| |i o| |i]; cbn [step].
    + intros [= <-]. exact Hall.
    + intros [= <-]. exact Hall.
    + intros [= <-]. exact Hall.
    + destruct (handleInoutKeyDown _ _ _ _) as [f e'].
      intros [= <-]. exact Hall.
    + destruct (includes _ _); [|discriminate].
      intros [= <-]. exact Hall.
    + unfold submit_event, resolver_settled, handleSubmit.
      destruct (submitting q); [discriminate|].
      cbn [validating with_validating].
      rewrite nth_error_snoc, remove_nth_snoc.
      intros [= <-]. unfold handleSubmit_resolved.
      destruct (isEmptyObject _); [rewrite exec_validating|]; exact Hall.
    + destruct (nth_error _ _); [|discriminate].
      intros [= <-]. rewrite exec_validating. exact Hall.
    + unfold submit_event, handleSubmit. destruct (submitting q); [discriminate|].
      intros [= <-]. cbn. apply Forall_app. split; [exact Hall|].
      constructor; [exact Hnow | constructor].
    + unfold resolver_settled. destruct (nth_error _ _) as [v|]; [|discriminate].
      intros [= <-]. rewrite Hres. apply Forall_remove_nth. exact Hall.
Qed.

(** X10: every payload the component has handed to [createQuestion]
    came from values that passed the schema, carries the parsed author id
    and the current route, and its tags are without duplicates, each of 1
    to 15 code units and trimmed. *)
Theorem payloads_well_formed (q : Question) :
  ReachableQ q ->
  Forall (well_formed_payload QuestionSchema props pathname) (calls (trace q)).
Proof.
  intros Hq. revert q Hq. apply Reachable_induction.
  - constructor.
  - intros ev q q' Hr Hall Hs.
    pose proof (reachable_resuming QuestionSchema props pathname q Hr) as Hinv.
    destruct (step_trace ev q q' Hinv Hs)
      as [(-> & _) | [(a & k & v & Hin & Hv & Hp & -> & _) | [(e & _ & -> & _) | (o & -> & _)]]].
    + assumption.
    + rewrite calls_app. apply Forall_app. split; [assumption|].
      constructor; [|constructor].
      assert (Htags : NoDup (tags v) /\ Forall well_formed_tag (tags v)).
      { destruct Hin as [-> | Hin].
        - split; [exact (tags_NoDup QuestionSchema props pathname q Hr)
                 | exact (tags_well_formed QuestionSchema props pathname q Hr)].
        - pose proof (validating_tags q Hr) as Hval.
          rewrite Forall_forall in Hval. exact (Hval v Hin). }
      unfold well_formed_payload, draft_of, payload. cbn.
      repeat split.
      * destruct v; exact Hv.
      * exact Hp.
      * apply Htags.
      * apply Htags.
    + rewrite calls_app. simpl. rewrite app_nil_r. assumption.
    + rewrite calls_app. destruct o; simpl; rewrite app_nil_r; assumption.
Qed.

Lemma parse_chars_plain (s r : jsstring) :
  forallb plain s = true -> parse_chars (s ++ 34%N :: r) = Some (s, r).
Proof.
  induction s as [|c s IH]; intros Hs.
  - reflexivity.
  - cbn [forallb] in Hs. apply andb_true_iff in Hs. destruct Hs as [Hc Hs].
    unfold plain in Hc. apply andb_true_iff in Hc. destruct Hc as [Hc H92].
    apply andb_true_iff in Hc. destruct Hc as [H32 H34].
    apply negb_true_iff in H34, H92. apply N.leb_le in H32.
    cbn [app parse_chars]. rewrite H34, H92.
    assert (Hlt : (c <? 32)%N = false) by (apply N.ltb_ge; exact H32).
    rewrite Hlt, (IH Hs). reflexivity.
Qed.

Lemma parse_value_quoted (f : nat) (s : jsstring) :
  forallb plain s = true ->
  parse_value (S f) (quoted s) = Some (JString s, []).
Proof.
  intros Hs. unfold quoted. cbn [parse_value skip_ws].
  assert (Hws : is_json_ws 34%N = false) by reflexivity.
  assert (H1 : (34 =? 123)%N = false) by reflexivity.
  assert (H2 : (34 =? 91)%N = false) by reflexivity.
  rewrite Hws, H1, H2, N.eqb_refl.
  pose proof (parse_chars_plain s [] Hs) as Hc.
  unfold jsstring, code_unit in *. rewrite Hc. reflexivity.
Qed.

Lemma JSON_parse_quoted (s : jsstring) :
  forallb plain s = true -> JSON_parse (quoted s) = inl (JString s).
Proof.
  intros Hs. unfold JSON_parse.
  assert (Hf : exists f, 2 * List.length (quoted s) = S f)
    by (unfold quoted; simpl; eexists; reflexivity).
  destruct Hf as [f ->].
  rewrite (parse_value_quoted f s Hs). reflexivity.
Qed.

(** X13: when the author id is handed over as the JSON text of a string
    (quotes around code units that need no escape), a valid draft is sent
    with exactly that string as author. *)
Theorem stringified_author_is_sent (q : Question) (id : jsstring) :
  mongoUserId props = quoted id ->
  forallb plain id = true ->
  submitting q = false ->
  isEmptyObject (QuestionSchema (values (form q))) = true ->
  exists q',
    stepQ SubmitClick q = Some q' /\
    calls (trace q') =
      calls (trace q) ++ [{| p_title := title (values (form q));
                             p_content := explanation (values (form q));
                             p_tags := tags (values (form q));
                             p_author := JString id;
                             p_path := pathname |}].
Proof.
  intros Hid Hplain Hs Hv.
  assert (Hp : JSON_parse (mongoUserId props) = inl (JString id))
    by (rewrite Hid; apply JSON_parse_quoted; exact Hplain).
  destruct (submit_click_valid QuestionSchema props pathname q (JString id) Hs Hv Hp)
    as (k & _ & ->).
  eexists. split; [reflexivity|].
  cbn. rewrite calls_app. reflexivity.
Qed.

End SubmitMore.

(** ** More on the theme state holder *)
Section ThemeMore.

Import Theme.

Lemma filter_others_idem (token : jsstring) (cl : list jsstring) :
  filter (fun t => negb (eqb t token)) (classList_remove token cl) =
  filter (fun t => negb (eqb t token)) cl.
Proof.
  unfold classList_remove. induction cl as [|x cl IH]; simpl; [reflexivity|].
  destruct (negb (eqb x token)) eqn:E; simpl; [rewrite E, IH|]; auto.
Qed.

Lemma filter_others_add (token : jsstring) (cl : list jsstring) :
  filter (fun t => negb (eqb t token)) (classList_add token cl) =
  filter (fun t => negb (eqb t token)) cl.
Proof.
  unfold classList_add. destruct (includes cl token); [reflexivity|].
  rewrite filter_app. simpl. rewrite str_eqb_refl. apply app_nil_r.
Qed.

Lemma effect_facts (m : jsstring) (cl : list jsstring) :
  let r := effect m cl in
  (fst r = lit "light" \/ fst r = lit "dark") /\
  eqb (fst r) m = false /\
  includes (snd r) (lit "dark") = eqb (fst r) (lit "dark") /\
  filter (fun t => negb (eqb t (lit "dark"))) (snd r) =
    filter (fun t => negb (eqb t (lit "dark"))) cl /\
  (NoDup cl -> NoDup (snd r)).
Proof.
  cbv zeta. unfold effect.
  destruct (eqb m (lit "light")) eqn:Em; cbn [fst snd].
  - apply str_eqb_eq in Em. subst m. repeat split.
    + right; reflexivity.
    + apply includes_classList_add.
    + apply filter_others_add.
    + intros Hnd. unfold classList_add.
      destruct (includes cl (lit "dark")) eqn:Hin; [exact Hnd|].
      apply NoDup_snoc; [exact Hnd | apply includes_not_In; exact Hin].
  - repeat split.
    + left; reflexivity.
    + destruct (eqb (lit "light") m) eqn:E; [|reflexivity].
      apply str_eqb_eq in E. subst m. discriminate.
    + apply includes_classList_remove.
    + apply filter_others_idem.
    + intros Hnd. apply NoDup_filter. exact Hnd.
Qed.

(** X14: a run of the effect sets the mode to light or dark, never to the
    mode it found, leaves the dark class on the document exactly when the
    new mode is dark, keeps every other class in place, and keeps the class
    list free of duplicates. *)
Theorem effect_touches_dark_only (m : jsstring) (cl : list jsstring) :
  let r := effect m cl in
  (fst r = lit "light" \/ fst r = lit "dark") /\
  eqb (fst r) m = false /\
  includes (snd r) (lit "dark") = eqb (fst r) (lit "dark") /\
  filter (fun t => negb (eqb t (lit "dark"))) (snd r) =
    filter (fun t => negb (eqb t (lit "dark"))) cl /\
  (NoDup cl -> NoDup (snd r)).
Proof. exact (effect_facts m cl). Qed.

Lemma commit_after_effect (t t1 : ThemeProvider) :
  commit t = Some t1 -> after_effect t1.
Proof.
  unfold commit. destruct (same_deps _ _); [discriminate|].
  destruct (effect_facts (mode t) (classList t))
    as (Hm & Hne & Hin & _).
  destruct (effect (mode t) (classList t)) as [m cl]. cbn [fst snd] in *.
  intros [= <-]. repeat split; cbn; [exact Hm | | exact Hin].
  exists (mode t). split; [reflexivity|].
  destruct (eqb (mode t) m) eqn:E; [|reflexivity].
  apply str_eqb_eq in E. rewrite E, str_eqb_refl in Hne. discriminate.
Qed.

Lemma after_effect_commit (t : ThemeProvider) :
  after_effect t ->
  exists t', commit t = Some t' /\ after_effect t' /\
             mode t' = if eqb (mode t) (lit "light") then lit "dark" else lit "light".
Proof.
  intros (Hm & (d & Hd & Hne) & Hin).
  destruct (commit t) as [t'|] eqn:Hc.
  - exists t'. split; [reflexivity|]. split; [exact (commit_after_effect t t' Hc)|].
    revert Hc. unfold commit, effect. destruct (same_deps _ _); [discriminate|].
    destruct (eqb (mode t) (lit "light")); intros [= <-]; reflexivity.
  - exfalso. revert Hc. unfold commit. rewrite Hd. cbn [same_deps]. rewrite Hne.
    destruct (effect _ _). discriminate.
Qed.

(** X15: from whatever mode, dependency and class list the effect first
    runs, it is due again after each of its runs: the modes are light or
    dark, alternate, and the dark class follows them. *)
Theorem effect_loop_never_settles (t t1 : ThemeProvider) (n : nat) :
  commit t = Some t1 ->
  exists t',
    commits n t1 = Some t' /\
    (exists t'', commit t' = Some t'') /\
    (mode t' = lit "light" \/ mode t' = lit "dark") /\
    (mode t' = mode t1 <-> Nat.even n = true) /\
    includes (classList t') (lit "dark") = eqb (mode t') (lit "dark").
Proof.
  intros Hc. apply commit_after_effect in Hc.
  assert (H : exists t', commits n t1 = Some t' /\ after_effect t' /\
                         (mode t' = mode t1 <-> Nat.even n = true)).
  { induction n as [|n (t' & Hn & Ha & Hm)].
    - exists t1. split; [reflexivity|]. split; [exact Hc|].
      split; intros; reflexivity.
    - destruct (after_effect_commit t' Ha) as (t'' & Hc' & Ha' & Hm').
      exists t''. cbn [commits]. rewrite Hn. split; [exact Hc'|].
      split; [exact Ha'|].
      rewrite Nat.even_succ, <- Nat.negb_even.
      destruct Hc as (Hl1 & _). destruct Ha as (Hl & _).
      rewrite Hm'. destruct (Nat.even n).
      + assert (E : mode t' = mode t1) by (apply Hm; reflexivity).
        rewrite E. destruct Hl1 as [-> | ->]; simpl; split; discriminate.
      + assert (E : mode t' <> mode t1) by (intros E; apply Hm in E; discriminate).
        destruct Hl as [El | El], Hl1 as [El1 | El1]; rewrite El, El1 in *;
          simpl; split; congruence. }
  destruct H as (t' & Hn & Ha & Hm).
  exists t'. split; [exact Hn|].
  destruct (after_effect_commit t' Ha) as (t'' & Hc' & _).
  destruct Ha as (Hl & _ & Hin).
  repeat split; try assumption; try (apply Hm).
  exists t''. exact Hc'.
Qed.

End ThemeMore.

(** ** Further scenarios *)

Lemma reachable_tags_well_formed_witness :
  Reachable QuestionSchema_spec ask_props ask_path
    (state_after ask_props (write_draft ++ add_tag (lit "  next.js")))
  /\ current_tags (state_after ask_props (write_draft ++ add_tag (lit "  next.js")))
     = [lit "css"; lit "next.js"]
  /\ Forall (fun t => 1 <= List.length t <= 15 /\ trim t = t /\
                      starts_clean t /\ starts_clean (rev t))
       (current_tags (state_after ask_props (write_draft ++ add_tag (lit "  next.js")))).
Proof.
  assert (H : Reachable QuestionSchema_spec ask_props ask_path
                (state_after ask_props (write_draft ++ add_tag (lit "  next.js"))))
    by (exists (write_draft ++ add_tag (lit "  next.js")); reflexivity).
  split; [exact H|]. split; [reflexivity|].
  exact (reachable_tags_well_formed QuestionSchema_spec ask_props ask_path _ H).
Defined.

Lemma add_tag_changes_iff_witness :
  exists q',
    run QuestionSchema_spec ask_props ask_path (add_tag (lit " css ")) mount = Some q' /\
    current_tags q' = [lit "css"] /\
    tagInput q' = empty.
Proof.
  destruct (add_tag_changes_iff QuestionSchema_spec ask_props ask_path mount (lit " css "))
    as (q' & Hrun & Hiff & Hadd & _).
  assert (Hch : current_tags q' <> current_tags mount).
  { apply Hiff. split; [vm_compute; discriminate|].
    split; [vm_compute; lia | simpl; tauto]. }
  destruct (Hadd Hch) as [Ht Hi].
  exists q'. split; [exact Hrun|]. split; [exact Ht | exact Hi].
Defined.

Lemma add_blank_tag_triggers_validation_witness :
  trim (lit "   ") = [] /\
  exists q',
    run QuestionSchema_spec ask_props ask_path (add_tag (lit "   "))
      (state_after ask_props write_draft) = Some q' /\
    current_tags q' = [lit "css"] /\
    tagInput q' = lit "   " /\
    tags_error (errors (form q')) = None.
Proof.
  assert (H : trim (lit "   ") = []) by reflexivity.
  split; [exact H|].
  destruct (add_blank_tag_triggers_validation QuestionSchema_spec ask_props ask_path
              (state_after ask_props write_draft) (lit "   ") H)
    as (q' & Hrun & Hv & Hi & He & _).
  exists q'. split; [exact Hrun|].
  split; [unfold current_tags; rewrite Hv; reflexivity|].
  split; [exact Hi | exact He].
Defined.

Lemma add_duplicate_tag_is_inert_witness :
  trim (lit "css ") <> [] /\
  List.length (trim (lit "css ")) <= 15 /\
  In (trim (lit "css ")) (current_tags (state_after ask_props write_draft)) /\
  exists q',
    run QuestionSchema_spec ask_props ask_path (add_tag (lit "css "))
      (state_after ask_props write_draft) = Some q' /\
    form q' = form (state_after ask_props write_draft) /\
    tagInput q' = lit "css ".
Proof.
  assert (H1 : trim (lit "css ") <> []) by (vm_compute; discriminate).
  assert (H2 : List.length (trim (lit "css ")) <= 15) by (vm_compute; lia).
  assert (H3 : In (trim (lit "css ")) (current_tags (state_after ask_props write_draft)))
    by (left; reflexivity).
  split; [exact H1|]. split; [exact H2|]. split; [exact H3|].
  destruct (add_duplicate_tag_is_inert QuestionSchema_spec ask_props ask_path
              (state_after ask_props write_draft) (lit "css ") H1 H2 H3)
    as (q' & Hrun & Hf & Hi & _).
  exists q'. split; [exact Hrun|]. split; [exact Hf | exact Hi].
Defined.

Lemma add_then_remove_tag_witness :
  trim (lit "html") <> [] /\
  List.length (trim (lit "html")) <= 15 /\
  ~ In (trim (lit "html")) (current_tags (state_after ask_props write_draft)) /\
  exists q',
    run QuestionSchema_spec ask_props ask_path
      (add_tag (lit "html") ++ remove_tag (trim (lit "html")))
      (state_after ask_props write_draft) = Some q' /\
    values (form q') = values (form (state_after ask_props write_draft)).
Proof.
  assert (H1 : trim (lit "html") <> []) by (vm_compute; discriminate).
  assert (H2 : List.length (trim (lit "html")) <= 15) by (vm_compute; lia).
  assert (H3 : ~ In (trim (lit "html"))
                 (current_tags (state_after ask_props write_draft)))
    by (intros [E|[]]; vm_compute in E; discriminate).
  split; [exact H1|]. split; [exact H2|]. split; [exact H3|].
  exact (add_then_remove_tag QuestionSchema_spec ask_props ask_path
           (state_after ask_props write_draft) (lit "html") H1 H2 H3).
Defined.

Lemma handleTagRemove_counts_witness :
  ~ In (lit "js") [lit "css"; lit "html"] /\
  tags (values (handleTagRemove (lit "js")
                  {| name := lit "tags"; value := [lit "css"; lit "html"] |} useForm))
  = [lit "css"; lit "html"].
Proof.
  assert (H : ~ In (lit "js") [lit "css"; lit "html"])
    by (intros [E|[E|[]]]; vm_compute in E; discriminate).
  split; [exact H|].
  destruct (handleTagRemove_counts (lit "js")
              {| name := lit "tags"; value := [lit "css"; lit "html"] |} useForm)
    as (_ & _ & _ & Hid & _).
  exact (Hid H).
Defined.

Lemma key_down_touches_tags_only_witness :
  eqb (lit "a") (lit "Enter") && eqb (lit "tags") (lit "tags") = false /\
  handleInoutKeyDown QuestionSchema_spec
    {| key := lit "a"; target_value := lit "cs"; defaultPrevented := false |}
    {| name := lit "tags"; value := [] |} useForm
  = (useForm,
     {| key := lit "a"; target_value := lit "cs"; defaultPrevented := false |}).
Proof.
  assert (H : eqb (lit "a") (lit "Enter") && eqb (lit "tags") (lit "tags") = false)
    by reflexivity.
  split; [exact H|].
  destruct (key_down_touches_tags_only QuestionSchema_spec
              {| key := lit "a"; target_value := lit "cs"; defaultPrevented := false |}
              {| name := lit "tags"; value := [] |} useForm)
    as (_ & _ & _ & _ & _ & _ & Hid).
  exact (Hid H).
Defined.

Lemma submit_click_outcomes_witness :
  submitting mount = false /\
  exists q',
    step QuestionSchema_spec ask_props ask_path SubmitClick mount = Some q' /\
    errors (form q') = QuestionSchema_spec defaultValues /\
    trace q' = [] /\
    submitting q' = false.
Proof.
  assert (H : submitting mount = false) by reflexivity.
  split; [exact H|].
  destruct (submit_click_outcomes QuestionSchema_spec ask_props ask_path mount H)
    as (q' & Hstep & _ & Herr & _ & Hcase).
  simpl in Hcase. destruct Hcase as (Ht & Hs & _).
  exists q'. split; [exact Hstep|]. split; [exact Herr|].
  split; [exact Ht | exact Hs].
Defined.

Lemma navigation_follows_calls_witness :
  Reachable QuestionSchema_spec ask_props ask_path
    (state_after ask_props (write_draft ++ [SubmitClick; Settled 0 Resolved])) /\
  JSON_parse (mongoUserId ask_props) = inl (JString (lit "507f1f77bcf86cd799439011")) /\
  pushes (trace (state_after ask_props
                   (write_draft ++ [SubmitClick; Settled 0 Resolved]))) = [lit "/"] /\
  List.length (calls (trace (state_after ask_props
                 (write_draft ++ [SubmitClick; Settled 0 Resolved])))) =
  List.length (pushes (trace (state_after ask_props
                 (write_draft ++ [SubmitClick; Settled 0 Resolved]))))
  + List.length (logs (trace (state_after ask_props
                 (write_draft ++ [SubmitClick; Settled 0 Resolved]))))
  + List.length (outstanding (state_after ask_props
                 (write_draft ++ [SubmitClick; Settled 0 Resolved]))).
Proof.
  assert (H : Reachable QuestionSchema_spec ask_props ask_path
                (state_after ask_props
                   (write_draft ++ [SubmitClick; Settled 0 Resolved])))
    by (exists (write_draft ++ [SubmitClick; Settled 0 Resolved]);
        vm_compute; reflexivity).
  assert (Hp : JSON_parse (mongoUserId ask_props)
               = inl (JString (lit "507f1f77bcf86cd799439011")))
    by (vm_compute; reflexivity).
  split; [exact H|]. split; [exact Hp|]. split; [vm_compute; reflexivity|].
  destruct (navigation_follows_calls QuestionSchema_spec ask_props ask_path _ H)
    as (_ & _ & Heq).
  exact (Heq _ Hp).
Defined.

Lemma payloads_well_formed_witness :
  Reachable QuestionSchema_spec ask_props ask_path
    (state_after ask_props (write_draft ++ [SubmitClick; Settled 0 Resolved])) /\
  Forall (well_formed_payload QuestionSchema_spec ask_props ask_path)
    (calls (trace (state_after ask_props
                     (write_draft ++ [SubmitClick; Settled 0 Resolved])))).
Proof.
  assert (H : Reachable QuestionSchema_spec ask_props ask_path
                (state_after ask_props
                   (write_draft ++ [SubmitClick; Settled 0 Resolved])))
    by (exists (write_draft ++ [SubmitClick; Settled 0 Resolved]);
        vm_compute; reflexivity).
  split; [exact H|].
  exact (payloads_well_formed QuestionSchema_spec ask_props ask_path _ H).
Defined.

Lemma submit_never_resets_draft_witness :
  (Settled 0 Resolved = SubmitClick \/
   exists i o, Settled 0 Resolved = Settled i o) /\
  step QuestionSchema_spec ask_props ask_path (Settled 0 Resolved)
    (state_after ask_props (write_draft ++ [SubmitClick]))
  = Some (state_after ask_props (write_draft ++ [SubmitClick; Settled 0 Resolved])) /\
  values (form (state_after ask_props
                  (write_draft ++ [SubmitClick; Settled 0 Resolved])))
  = values (form (state_after ask_props (write_draft ++ [SubmitClick]))) /\
  tagInput (state_after ask_props (write_draft ++ [SubmitClick; Settled 0 Resolved]))
  = tagInput (state_after ask_props (write_draft ++ [SubmitClick])).
Proof.
  assert (H1 : Settled 0 Resolved = SubmitClick \/
               exists i o, Settled 0 Resolved = Settled i o)
    by (right; exists 0, Resolved; reflexivity).
  assert (H2 : step QuestionSchema_spec ask_props ask_path (Settled 0 Resolved)
                 (state_after ask_props (write_draft ++ [SubmitClick]))
               = Some (state_after ask_props
                         (write_draft ++ [SubmitClick; Settled 0 Resolved])))
    by (vm_compute; reflexivity).
  split; [exact H1|]. split; [exact H2|].
  exact (submit_never_resets_draft QuestionSchema_spec ask_props ask_path
           (Settled 0 Resolved) _ _ H1 H2).
Defined.

Lemma settlement_reenables_submit_witness :
  Reachable QuestionSchema_spec ask_props ask_path
    (state_after ask_props
       (write_draft ++ [Submit; Submit; Validated 0; Validated 0])) /\
  List.length (outstanding (state_after ask_props
       (write_draft ++ [Submit; Submit; Validated 0; Validated 0]))) = 2 /\
  exists q',
    step QuestionSchema_spec ask_props ask_path
      (Settled 1 (Rejected (Reason (lit "Network error"))))
      (state_after ask_props
         (write_draft ++ [Submit; Submit; Validated 0; Validated 0])) = Some q' /\
    submitting q' = false /\
    List.length (outstanding q') = 1.
Proof.
  assert (H : Reachable QuestionSchema_spec ask_props ask_path
                (state_after ask_props
                   (write_draft ++ [Submit; Submit; Validated 0; Validated 0])))
    by (exists (write_draft ++ [Submit; Submit; Validated 0; Validated 0]);
        vm_compute; reflexivity).
  assert (Hl : List.length (outstanding (state_after ask_props
                 (write_draft ++ [Submit; Submit; Validated 0; Validated 0]))) = 2)
    by (vm_compute; reflexivity).
  split; [exact H|]. split; [exact Hl|].
  pose proof (settlement_reenables_submit QuestionSchema_spec ask_props ask_path
                _ 1 H) as Hthm.
  rewrite Hl in Hthm. cbn [Nat.ltb Nat.leb] in Hthm.
  destruct (Hthm (Rejected (Reason (lit "Network error"))))
    as (q' & Hstep & Hflag & _ & Hlen & _).
  exists q'. split; [exact Hstep|]. split; [exact Hflag|].
  injection Hlen as Hlen. symmetry. exact Hlen.
Defined.

Lemma stringified_author_is_sent_witness :
  mongoUserId ask_props = quoted (lit "507f1f77bcf86cd799439011") /\
  forallb plain (lit "507f1f77bcf86cd799439011") = true /\
  submitting (state_after ask_props write_draft) = false /\
  isEmptyObject (QuestionSchema_spec
                   (values (form (state_after ask_props write_draft)))) = true /\
  exists q',
    step QuestionSchema_spec ask_props ask_path SubmitClick
      (state_after ask_props write_draft) = Some q' /\
    calls (trace q') =
      [{| p_title := lit "How to center a div in CSS?";
          p_content := lit "<p>I tried margin auto and flexbox.</p>";
          p_tags := [lit "css"];
          p_author := JString (lit "507f1f77bcf86cd799439011");
          p_path := lit "/ask-question" |}].
Proof.
  assert (H1 : mongoUserId ask_props = quoted (lit "507f1f77bcf86cd799439011"))
    by reflexivity.
  assert (H2 : forallb plain (lit "507f1f77bcf86cd799439011") = true)
    by (vm_compute; reflexivity).
  assert (H3 : submitting (state_after ask_props write_draft) = false)
    by reflexivity.
  assert (H4 : isEmptyObject
                 (QuestionSchema_spec
                    (values (form (state_after ask_props write_draft)))) = true)
    by reflexivity.
  split; [exact H1|]. split; [exact H2|]. split; [exact H3|]. split; [exact H4|].
  exact (stringified_author_is_sent QuestionSchema_spec ask_props ask_path
           (state_after ask_props write_draft) (lit "507f1f77bcf86cd799439011")
           H1 H2 H3 H4).
Defined.

Lemma effect_touches_dark_only_witness :
  NoDup [lit "inter"] /\
  Theme.effect (lit "light") [lit "inter"] = (lit "dark", [lit "inter"; lit "dark"]) /\
  NoDup (snd (Theme.effect (lit "light") [lit "inter"])).
Proof.
  assert (H : NoDup [lit "inter"]) by (repeat constructor; intros []).
  split; [exact H|]. split; [reflexivity|].
  destruct (effect_touches_dark_only (lit "light") [lit "inter"])
    as (_ & _ & _ & _ & Hnd).
  exact (Hnd H).
Defined.

Lemma effect_loop_never_settles_witness :
  Theme.commit {| Theme.mode := lit "system"; Theme.deps := None;
                  Theme.classList := [lit "inter"] |}
  = Some {| Theme.mode := lit "light"; Theme.deps := Some (lit "system");
            Theme.classList := [lit "inter"] |} /\
  exists t',
    Theme.commits 3 {| Theme.mode := lit "light"; Theme.deps := Some (lit "system");
                       Theme.classList := [lit "inter"] |} = Some t' /\
    (exists t'', Theme.commit t' = Some t'') /\
    (Theme.mode t' = lit "light" \/ Theme.mode t' = lit "dark").
Proof.
  assert (H : Theme.commit {| Theme.mode := lit "system"; Theme.deps := None;
                              Theme.classList := [lit "inter"] |}
              = Some {| Theme.mode := lit "light"; Theme.deps := Some (lit "system");
                        Theme.classList := [lit "inter"] |}) by reflexivity.
  split; [exact H|].
  destruct (effect_loop_never_settles _ _ 3 H) as (t' & Hn & Hdue & Hm & _).
  exists t'. split; [exact Hn|]. split; [exact Hdue | exact Hm].
Defined.
